(** * quickdirtyscan: a localhost TCP port scanner

    Shallow embedding of [quickdirtyscan.c] and the properties of its
    port-state detection ([check_port_state]), its process correlation
    ([get_process_info]) and its sweep ([main]).

    The program is sequential C.  Its calls into the operating system
    (sockets, the /proc file system, the user and service databases) are
    modelled by a [World] of oracles; what the program does with the answers is
    translated function by function.  Every call that opens or releases a
    descriptor, and every [printf], is recorded in a trace of [Event]s. *)

From Stdlib Require Import ZArith List String Ascii Bool Sorted Lia.
Import ListNotations.

Local Open Scope string_scope.
Local Open Scope Z_scope.

(** ** The C library functions the program calls *)

Module LibC.

Definition code (c : ascii) : Z := Z.of_N (N_of_ascii c).

Definition isdigit (c : ascii) : bool := (48 <=? code c) && (code c <=? 57).

(** space, and \t \n \v \f \r *)
Definition isspace (c : ascii) : bool :=
  (code c =? 32) || ((9 <=? code c) && (code c <=? 13)).

Definition hex_value (c : ascii) : option Z :=
  if isdigit c then Some (code c - 48)
  else if (97 <=? code c) && (code c <=? 102) then Some (code c - 87)
  else if (65 <=? code c) && (code c <=? 70) then Some (code c - 55)
  else None.

Definition newline : ascii := "010"%char.

(** A buffer read as a C string ends at its first NUL byte. *)
Fixpoint c_str (buf : string) : string :=
  match buf with
  | EmptyString => EmptyString
  | String c rest => if code c =? 0 then EmptyString else String c (c_str rest)
  end.

(** [s[0]]: the terminating NUL when [s] is empty. *)
Definition first_char (s : string) : ascii :=
  match s with
  | EmptyString => zero
  | String c _ => c
  end.

(** [int] and [uid_t] are 32 bits wide, [long] 64 bits. *)
Definition wrap_int (z : Z) : Z := (z + 2 ^ 31) mod 2 ^ 32 - 2 ^ 31.
Definition wrap_uint (z : Z) : Z := z mod 2 ^ 32.
Definition LONG_MAX : Z := 2 ^ 63 - 1.
Definition LONG_MIN : Z := - 2 ^ 63.
Definition ULONG_MAX : Z := 2 ^ 64 - 1.

Fixpoint skip_space (s : string) : string :=
  match s with
  | String c rest => if isspace c then skip_space rest else s
  | EmptyString => s
  end.

(** The longest prefix of decimal digits: how many there are, their value,
    and what follows. *)
Fixpoint scan_digits (acc : Z) (n : nat) (s : string) : nat * Z * string :=
  match s with
  | String c rest =>
      if isdigit c then scan_digits (10 * acc + (code c - 48)) (S n) rest
      else (n, acc, s)
  | EmptyString => (n, acc, s)
  end.

Fixpoint scan_hex_digits (acc : Z) (n : nat) (s : string) : nat * Z * string :=
  match s with
  | String c rest =>
      match hex_value c with
      | Some v => scan_hex_digits (16 * acc + v) (S n) rest
      | None => (n, acc, s)
      end
  | EmptyString => (n, acc, s)
  end.

(** An optional sign: [true] for '-'. *)
Definition scan_sign (s : string) : bool * string :=
  match s with
  | String "-" rest => (true, rest)
  | String "+" rest => (false, rest)
  | _ => (false, s)
  end.

(** [strtol (s, NULL, 10)]: white space, a sign, digits; 0 when there is no
    digit; the result saturates at the bounds of [long]. *)
Definition strtol10 (s : string) : Z :=
  let (neg, s1) := scan_sign (skip_space s) in
  let '(_, v, _) := scan_digits 0 0 s1 in
  if neg then Z.max LONG_MIN (- v) else Z.min LONG_MAX v.

(** [atoi (s)] is [(int) strtol (s, NULL, 10)]. *)
Definition atoi (s : string) : Z := wrap_int (strtol10 s).

(** The conversion [%d] of [sscanf]: white space, a sign, at least one digit.
    The value is the one stored through an [int *]. *)
Definition scan_d (s : string) : option (Z * string) :=
  let (neg, s1) := scan_sign (skip_space s) in
  let '(n, v, rest) := scan_digits 0 0 s1 in
  match n with
  | O => None
  | _ => Some (wrap_int (if neg then Z.max LONG_MIN (- v) else Z.min LONG_MAX v), rest)
  end.

(** The prefix "0x" or "0X" that [%X] accepts: the 0 counts as a digit. *)
Definition scan_0x (s : string) : nat * string :=
  match s with
  | String "0" (String "x" rest) => (1%nat, rest)
  | String "0" (String "X" rest) => (1%nat, rest)
  | _ => (0%nat, s)
  end.

(** The conversion [%X]: white space, a sign, an optional "0x", hexadecimal
    digits; the [unsigned long] saturates, is negated after a '-' and is
    stored through the [int *] the program passes. *)
Definition scan_X (s : string) : option (Z * string) :=
  let (neg, s1) := scan_sign (skip_space s) in
  let (n0, s2) := scan_0x s1 in
  let '(n, v, rest) := scan_hex_digits 0 n0 s2 in
  match n with
  | O => None
  | _ =>
      Some (wrap_int (if ULONG_MAX <? v then ULONG_MAX
                      else if neg then - v else v), rest)
  end.

(** The conversion [%[^:]]: the longest prefix free of ':'. *)
Fixpoint scan_not_colon (s : string) : string * string :=
  match s with
  | String c rest =>
      if (c =? ":")%char then (EmptyString, s)
      else let (m, r) := scan_not_colon rest in (String c m, r)
  | EmptyString => (EmptyString, s)
  end.

(** [sscanf (line, "%*d: %[^:]:%X", local_addr, &local_port) == 2]:
    [Some local_port] when both conversions are assigned.  The listing of
    the kernel has addresses of 8 characters, within [local_addr[32]]. *)
Definition sscanf_tcp (line : string) : option Z :=
  match scan_d line with
  | Some (_, String ":" s1) =>
      match scan_not_colon (skip_space s1) with
      | (String _ _, String ":" s2) =>
          match scan_X s2 with
          | Some (local_port, _) => Some local_port
          | None => None
          end
      | _ => None
      end
  | _ => None
  end.

(** [strncmp (s, "Uid:", 4) == 0] *)
Definition starts_with_Uid (s : string) : bool :=
  match s with
  | String "U" (String "i" (String "d" (String ":" _))) => true
  | _ => false
  end.

(** [sscanf (status_line, "Uid:\t%d", &uid)]: [Some uid] when the conversion
    is assigned; the [int] is read back as a [uid_t]. *)
Definition sscanf_uid (status_line : string) : option Z :=
  match status_line with
  | String "U" (String "i" (String "d" (String ":" s1))) =>
      match scan_d (skip_space s1) with
      | Some (v, _) => Some (wrap_uint v)
      | None => None
      end
  | _ => None
  end.

(** [s[strcspn (s, "\n")] = 0] *)
Fixpoint cut_newline (s : string) : string :=
  match s with
  | String c rest => if (c =? newline)%char then EmptyString else String c (cut_newline rest)
  | EmptyString => EmptyString
  end.

Fixpoint take (n : nat) (s : string) : string :=
  match n, s with
  | S n', String c rest => String c (take n' rest)
  | _, _ => EmptyString
  end.

Fixpoint spaces (n : nat) : string :=
  match n with
  | O => EmptyString
  | S n' => String " " (spaces n')
  end.

(** The conversion [%-Ns]: left-justified in a field of [width]. *)
Definition pad_right (width : nat) (s : string) : string :=
  s ++ spaces (width - String.length s).

(** [snprintf (buf, size, ...)] keeps the first [size - 1] characters. *)
Definition snprintf (size : nat) (formatted : string) : string :=
  take (size - 1) formatted.

(** The successive results of [fgets (buf, size, fp)] on a stream holding
    [content]: each ends after a newline, or after [size - 1] characters, or
    at the end of the file.  [room] is what is left of the buffer. *)
Fixpoint fgets_chunks (size room : nat) (content : string) : list string :=
  match content with
  | EmptyString => []
  | String c rest =>
      if (c =? newline)%char || (room <=? 1)%nat
      then String c EmptyString :: fgets_chunks size (size - 1) rest
      else match fgets_chunks size (room - 1) rest with
           | [] => [String c EmptyString]
           | chunk :: chunks => String c chunk :: chunks
           end
  end.

End LibC.

Import LibC.

(** ** The operating system *)

(** What a descriptor or stream stands for.  A socket is named by the port it
    is meant for and by the dial it serves: dial 0 is the socket of [main],
    dial 1 the one of [check_port_state]. *)
Inductive Handle : Type :=
| HSock (port : Z) (dial : nat)
| HDir
| HFile (path : string).

Inductive Arg : Type :=
| AInt (n : Z)
| AStr (s : string).

Inductive Event : Type :=
| EvOpen (h : Handle) (ok : bool)        (* socket, opendir, fopen *)
| EvConnect (port : Z) (dial : nat) (ok : bool)
| EvRelease (h : Handle)                 (* close, closedir, fclose *)
| EvGetservbyport (port : Z)
| EvGetpwuid (uid : Z)
| EvPrintf (format : string) (args : list Arg).

(** One reading of /proc: the names [readdir] yields, in its order, unless
    [opendir] fails; and the content of each file [fopen] can open. *)
Record ProcFS : Type := {
  proc_entries : option (list string);
  file_content : string -> option string
}.

Record World : Type := {
  getpid : Z;
  (** whether [socket ()] gives a descriptor for this dial of this port *)
  socket_ok : Z -> nat -> bool;
  (** whether [connect ()] returns 0 for this dial of this port *)
  connect_ok : Z -> nat -> bool;
  (** [getservbyport (htons (port), "tcp")]: the [s_name] of the entry *)
  getservbyport : Z -> option string;
  (** [getpwuid (uid)]: the [pw_name] of the entry *)
  getpwuid : Z -> option string;
  (** /proc as it is while the owner of this port is looked up *)
  procfs : Z -> ProcFS
}.

(** A computation returns a value and the calls it made, oldest first. *)
Definition IO (A : Type) : Type := A * list Event.

Definition ret {A : Type} (a : A) : IO A := (a, []).

Definition bind {A B : Type} (m : IO A) (k : A -> IO B) : IO B :=
  let (a, t1) := m in
  let (b, t2) := k a in
  (b, (t1 ++ t2)%list).

Definition emit (e : Event) : IO unit := (tt, [e]).

Definition result {A : Type} (m : IO A) : A := fst m.
Definition trace {A : Type} (m : IO A) : list Event := snd m.

Arguments bind {A B} m k : simpl never.
Arguments result {A} m : simpl never.
Arguments trace {A} m : simpl never.

Notation "x <- m ;; k" := (bind m (fun x => k))
  (at level 61, m at next level, right associativity).
Notation "m ;;; k" := (bind m (fun _ => k))
  (at level 61, right associativity).

(** A stream open for reading: the lines [fgets] has still to return. *)
Definition FILE : Type := list string.

(** The name of the entry of a process in /proc: its identifier in decimal,
    without leading zeros.  Ten digits hold any [pid_t]. *)
Definition digit_char (d : Z) : ascii := ascii_of_N (Z.to_N (48 + d)).

Fixpoint decimal_digits (fuel : nat) (n : Z) : string :=
  match fuel with
  | O => EmptyString
  | S fuel' =>
      (if n <? 10 then EmptyString else decimal_digits fuel' (n / 10))
      ++ String (digit_char (n mod 10)) EmptyString
  end.

Definition proc_entry_name (pid : Z) : string := decimal_digits 10 pid.

(** The value of a string of digits read from the left, onto [acc]. *)
Fixpoint digits_value (acc : Z) (s : string) : Z :=
  match s with
  | EmptyString => acc
  | String c rest => digits_value (10 * acc + (code c - 48)) rest
  end.

Fixpoint all_digits (s : string) : bool :=
  match s with
  | EmptyString => true
  | String c rest => isdigit c && all_digits rest
  end.

(** ** Program constants *)

Definition START_PORT : Z := 1.
Definition END_PORT : Z := 65535.
Definition COL_PORT : Z := 8.
Definition COL_STATE : Z := 12.
Definition COL_SERVICE : Z := 20.
Definition COL_PROC : Z := 30.

(** ** [get_process_info] *)

Section Correlator.

(** the global [our_pid], /proc and the user database *)
Variable our_pid : Z.
Variable fs : ProcFS.
Variable pwd : Z -> option string.

(** [fopen (path, "r")] with the 256-byte line buffer the reads will use *)
Definition fopen (path : string) : IO (option FILE) :=
  match file_content fs path with
  | Some content => (Some (fgets_chunks 256 255 content), [EvOpen (HFile path) true])
  | None => (None, [EvOpen (HFile path) false])
  end.

Definition fclose (path : string) : IO unit := emit (EvRelease (HFile path)).

Definition call_getpwuid (uid : Z) : IO (option string) :=
  (pwd uid, [EvGetpwuid uid]).

Definition net_tcp_path (d_name : string) : string :=
  snprintf 256 ("/proc/" ++ d_name ++ "/net/tcp").
Definition comm_path (d_name : string) : string :=
  snprintf 256 ("/proc/" ++ d_name ++ "/comm").
Definition status_path (d_name : string) : string :=
  snprintf 256 ("/proc/" ++ d_name ++ "/status").

(** "%-15s  PID: %-6s  User: %-8s" into [process_info[512]] *)
Definition format_process_info (proc_name d_name user : string) : string :=
  snprintf 512 (pad_right 15 proc_name ++ "  PID: " ++ pad_right 6 d_name
                ++ "  User: " ++ pad_right 8 user).

(** Lines 126-133: the loop over the status record, [uid] as it stands. *)
Fixpoint read_uid (status_fp : FILE) (uid : Z) : Z :=
  match status_fp with
  | [] => uid
  | buf :: rest =>
      let status_line := c_str buf in
      if starts_with_Uid status_line
      then match sscanf_uid status_line with
           | Some parsed => parsed
           | None => uid
           end
      else read_uid rest uid
  end.

(** Lines 106-144: what is done at a matching entry of the socket table;
    [process_info] is the static buffer as it stands. *)
Definition describe_process (d_name process_info : string) : IO string :=
  comm_fp <- fopen (comm_path d_name) ;;
  status_fp <- fopen (status_path d_name) ;;
  match comm_fp, status_fp with
  | Some comm, Some status =>
      info <- match comm with
              | buf :: _ =>
                  let proc_name := cut_newline (c_str buf) in
                  let uid := read_uid status 0 in
                  pw <- call_getpwuid uid ;;
                  ret (format_process_info proc_name d_name
                         match pw with
                         | Some pw_name => pw_name
                         | None => "unknown"
                         end)
              | [] => ret process_info
              end ;;
      fclose (comm_path d_name) ;;;
      fclose (status_path d_name) ;;;
      ret info
  | _, _ => ret process_info
  end.

(** Lines 99-148: the loop over the entries of one socket table, left by
    [break] at the first entry whose local port is [port].  Returns the
    buffer and the lines left unread. *)
Fixpoint scan_tcp_table (port : Z) (d_name : string) (fp : FILE)
         (process_info : string) : IO (string * FILE) :=
  match fp with
  | [] => ret (process_info, [])
  | buf :: rest =>
      match sscanf_tcp (c_str buf) with
      | Some local_port =>
          if local_port =? port
          then info <- describe_process d_name process_info ;;
               ret (info, rest)
          else scan_tcp_table port d_name rest process_info
      | None => scan_tcp_table port d_name rest process_info
      end
  end.

(** Lines 87-89: the entries that are passed over. *)
Definition skipped (d_name : string) : bool :=
  negb (isdigit (first_char d_name)) || (atoi d_name =? our_pid).

(** Lines 84-151: the loop over the entries of /proc. *)
Fixpoint readdir_loop (port : Z) (entries : list string)
         (process_info : string) : IO string :=
  match entries with
  | [] => ret process_info
  | d_name :: later =>
      if skipped d_name then readdir_loop port later process_info
      else
        fp <- fopen (net_tcp_path d_name) ;;
        match fp with
        | Some table =>
            (* the first [fgets] takes the header line *)
            scanned <- scan_tcp_table port d_name (tl table) process_info ;;
            fclose (net_tcp_path d_name) ;;;
            readdir_loop port later (fst scanned)
        | None => readdir_loop port later process_info
        end
  end.

Definition get_process_info (port : Z) : IO string :=
  let process_info := "" in
  match proc_entries fs with
  | None => (process_info, [EvOpen HDir false])
  | Some entries =>
      emit (EvOpen HDir true) ;;;
      info <- readdir_loop port entries process_info ;;
      emit (EvRelease HDir) ;;;
      ret info
  end.

End Correlator.

(** ** [check_port_state] and [main] *)

Section Scanner.

Variable W : World.

Definition call_socket (port : Z) (dial : nat) : IO bool :=
  (socket_ok W port dial, [EvOpen (HSock port dial) (socket_ok W port dial)]).

Definition call_connect (port : Z) (dial : nat) : IO bool :=
  (connect_ok W port dial, [EvConnect port dial (connect_ok W port dial)]).

Definition close (port : Z) (dial : nat) : IO unit :=
  emit (EvRelease (HSock port dial)).

Definition check_port_state (port : Z) : IO Z :=
  test_sock <- call_socket port 1 ;;
  if negb test_sock then ret 0
  else
    connected <- call_connect port 1 ;;
    if connected
    then close port 1 ;;; ret 2
    else close port 1 ;;; ret 1.

(** the STATE argument of the [printf] of a row *)
Definition state_name (port_state : Z) : string :=
  if port_state =? 2 then "LISTENING"
  else if port_state =? 1 then "ESTABLISHED"
  else "OPEN".

Definition row_format : string :=
  "%-*d %-*s %-*s %s" ++ String newline "".

Definition print_row (port : Z) (state service process : string) : IO unit :=
  emit (EvPrintf row_format
          [AInt COL_PORT; AInt port; AInt COL_STATE; AStr state;
           AInt COL_SERVICE; AStr service; AStr process]).

Definition call_getservbyport (port : Z) : IO (option string) :=
  (getservbyport W port, [EvGetservbyport port]).

(** Lines 217-249: the body of the sweep. *)
Definition scan_port (port : Z) : IO unit :=
  sock <- call_socket port 0 ;;
  if negb sock then ret tt
  else
    connected <- call_connect port 0 ;;
    (if connected
     then
       service <- call_getservbyport port ;;
       port_state <- check_port_state port ;;
       proc_info <- get_process_info (getpid W) (procfs W port) (getpwuid W) port ;;
       print_row port (state_name port_state)
         match service with
         | Some s_name => s_name
         | None => "unknown"
         end
         (if code (first_char proc_info) =? 0 then "unknown" else proc_info)
     else ret tt) ;;;
    close port 0.

(** [for (port = ...; port <= END_PORT; port++)], at most [fuel] rounds.
    Returns the value of [port] when the loop is left. *)
Fixpoint sweep (fuel : nat) (port : Z) : IO Z :=
  match fuel with
  | O => ret port
  | S fuel' =>
      if port <=? END_PORT
      then scan_port port ;;; sweep fuel' (port + 1)
      else ret port
  end.

Definition header_format : string :=
  "%-*s %-*s %-*s %-*s" ++ String newline "".

Definition print_banner : IO unit :=
  emit (EvPrintf ("Scanning %s ports %d to %d..." ++ String newline (String newline ""))
          [AStr "127.0.0.1"; AInt START_PORT; AInt END_PORT]) ;;;
  emit (EvPrintf (String newline "Port Scanner Results" ++ String newline "") []) ;;;
  emit (EvPrintf header_format
          [AInt COL_PORT; AStr "PORT"; AInt COL_STATE; AStr "STATE";
           AInt COL_SERVICE; AStr "SERVICE"; AInt COL_PROC; AStr "PROCESS"]) ;;;
  emit (EvPrintf header_format
          [AInt COL_PORT; AStr "--------"; AInt COL_STATE; AStr "-----------";
           AInt COL_SERVICE; AStr "-------------------";
           AInt COL_PROC; AStr "------------------------------"]).

(** [main]: the sweep has one round for each port of the range. *)
Definition main : IO Z :=
  print_banner ;;;
  sweep (Z.to_nat (END_PORT - START_PORT + 1)) START_PORT ;;;
  ret 0.

End Scanner.

(** ** Reading a trace *)

(** The record a row of the report stands for: the arguments of its [printf]. *)
Record Row : Type := {
  row_port : Z;
  row_state : string;
  row_service : string;
  row_process : string
}.

Definition row_of (e : Event) : list Row :=
  match e with
  | EvPrintf format
      [AInt _; AInt port; AInt _; AStr state; AInt _; AStr service; AStr process] =>
      if (format =? row_format)%string
      then [ {| row_port := port; row_state := state;
                row_service := service; row_process := process |} ]
      else []
  | _ => []
  end.

(** The rows printed, in the order of printing. *)
Definition rows (t : list Event) : list Row := flat_map row_of t.

(** The ports a probe was started for: the requests for the socket of a first
    dial, in the order they were made. *)
Definition probe_of (e : Event) : list Z :=
  match e with
  | EvOpen (HSock port O) _ => [port]
  | _ => []
  end.

Definition probes (t : list Event) : list Z := flat_map probe_of t.

(** The ports a connection was attempted to, by dial. *)
Definition connect_of (dial : nat) (e : Event) : list Z :=
  match e with
  | EvConnect port d _ => if Nat.eqb d dial then [port] else []
  | _ => []
  end.

Definition connects (dial : nat) (t : list Event) : list Z :=
  flat_map (connect_of dial) t.

(** The port a socket call is made for. *)
Definition socket_port (e : Event) : option Z :=
  match e with
  | EvOpen (HSock port _) _ => Some port
  | EvConnect port _ _ => Some port
  | EvRelease (HSock port _) => Some port
  | _ => None
  end.

(** The three states a row can show. *)
Definition classified (state : string) : Prop :=
  state = "LISTENING" \/ state = "ESTABLISHED" \/ state = "OPEN".

(** Events of the correlator: /proc and the user database only. *)
Definition proc_event (e : Event) : bool :=
  match e with
  | EvOpen HDir _ | EvOpen (HFile _) _ => true
  | EvRelease HDir | EvRelease (HFile _) => true
  | EvGetpwuid _ => true
  | _ => false
  end.

Definition handle_eqb (a b : Handle) : bool :=
  match a, b with
  | HSock p d, HSock q e => (p =? q) && Nat.eqb d e
  | HDir, HDir => true
  | HFile x, HFile y => (x =? y)%string
  | _, _ => false
  end.

Fixpoint release (h : Handle) (held : list Handle) : list Handle :=
  match held with
  | [] => []
  | x :: rest => if handle_eqb h x then rest else x :: release h rest
  end.

(** The descriptors and streams held after a trace, newest first. *)
Definition step_held (held : list Handle) (e : Event) : list Handle :=
  match e with
  | EvOpen h true => h :: held
  | EvRelease h => release h held
  | _ => held
  end.

Definition held_after (held : list Handle) (t : list Event) : list Handle :=
  fold_left step_held t held.

Definition leaked (t : list Event) : list Handle := held_after [] t.

(** The ports of the sweep. *)
Definition port_range : list Z :=
  map (fun i => START_PORT + Z.of_nat i)
      (seq 0 (Z.to_nat (END_PORT - START_PORT + 1))).

Definition first_dial_ok (W : World) (port : Z) : bool :=
  socket_ok W port 0 && connect_ok W port 0.

(** The row [main] prints for a port whose first dial succeeds. *)
Definition row_for (W : World) (port : Z) : Row :=
  let proc_info :=
    result (get_process_info (getpid W) (procfs W port) (getpwuid W) port) in
  {| row_port := port;
     row_state := state_name (result (check_port_state W port));
     row_service := match getservbyport W port with
                    | Some s_name => s_name
                    | None => "unknown"
                    end;
     row_process := if code (first_char proc_info) =? 0 then "unknown"
                    else proc_info |}.

(** ** The correlator as the specification describes it *)

Record ProcessRecord : Type := {
  executableName : string;
  processId : string;      (* the name of the entry of /proc *)
  ownerName : string
}.

Definition render (r : ProcessRecord) : string :=
  format_process_info (executableName r) (processId r) (ownerName r).

Section CorrelatorSpec.

Variable our_pid : Z.
Variable fs : ProcFS.
Variable pwd : Z -> option string.

Definition lines_of (path : string) : option FILE :=
  option_map (fgets_chunks 256 255) (file_content fs path).

(** An entry of a socket table has this local port. *)
Definition entry_has_port (port : Z) (buf : string) : bool :=
  match sscanf_tcp (c_str buf) with
  | Some local_port => local_port =? port
  | None => false
  end.

(** The socket table of a process lists the port, below its header. *)
Definition table_has_port (port : Z) (d_name : string) : bool :=
  match lines_of (net_tcp_path d_name) with
  | Some table => existsb (entry_has_port port) (tl table)
  | None => false
  end.

(** A process that is looked at, and whose socket table lists the port. *)
Definition matches (port : Z) (d_name : string) : bool :=
  negb (skipped our_pid d_name) && table_has_port port d_name.

Definition owner_of (uid : Z) : string :=
  match pwd uid with
  | Some pw_name => pw_name
  | None => "unknown"
  end.

(** The record of a process whose display name and status record can be
    read. *)
Definition record_of (d_name : string) : option ProcessRecord :=
  match lines_of (comm_path d_name), lines_of (status_path d_name) with
  | Some (buf :: _), Some status =>
      Some {| executableName := cut_newline (c_str buf);
              processId := d_name;
              ownerName := owner_of (read_uid status 0) |}
  | _, _ => None
  end.

(** What a process contributes to a correlation. *)
Definition reports (port : Z) (d_name : string) : option ProcessRecord :=
  if matches port d_name then record_of d_name else None.

(** The status record has no line "Uid:", or the first one has no number. *)
Definition uid_unreadable (status : FILE) : Prop :=
  match find (fun buf => starts_with_Uid (c_str buf)) status with
  | Some buf => sscanf_uid (c_str buf) = None
  | None => True
  end.

(** The display name and the status record of a process open together or not
    at all. *)
Definition streams_paired (d_name : string) : Prop :=
  file_content fs (comm_path d_name) = None <->
  file_content fs (status_path d_name) = None.

(** First-match-wins, as the specification words it: the correlator returns
    the record of the first process, in the order of enumeration, whose socket
    table lists the port. *)
Definition first_match_wins (port : Z) : Prop :=
  forall before d after r,
    proc_entries fs = Some (before ++ d :: after)%list ->
    Forall (fun d' => matches port d' = false) before ->
    matches port d = true ->
    record_of d = Some r ->
    result (get_process_info our_pid fs pwd port) = render r.

(** One round of the loop over /proc, on the buffer. *)
Definition round (port : Z) (process_info d_name : string) : string :=
  match reports port d_name with
  | Some r => render r
  | None => process_info
  end.

End CorrelatorSpec.

Definition only_proc (t : list Event) : Prop :=
  Forall (fun e => proc_event e = true) t.

Definition banner : list Event := trace print_banner.

Section ScannerSpec.

Variable W : World.

(** The calls of the correlator when it is run for a port. *)
Definition correlation (port : Z) : list Event :=
  trace (get_process_info (getpid W) (procfs W port) (getpwuid W) port).

Definition row_event (r : Row) : Event :=
  EvPrintf row_format
    [AInt COL_PORT; AInt (row_port r); AInt COL_STATE; AStr (row_state r);
     AInt COL_SERVICE; AStr (row_service r); AStr (row_process r)].

End ScannerSpec.


(** ** Sample worlds *)

Module Sample.

Definition nl : string := String newline "".
Definition tab : string := String "009"%char "".

Fixpoint lookup (files : list (string * string)) (path : string) : option string :=
  match files with
  | [] => None
  | (name, content) :: rest =>
      if (name =? path)%string then Some content else lookup rest path
  end.

Definition tcp_header : string :=
  "  sl  local_address rem_address   st tx_queue rx_queue tr tm->when retrnsmt   uid  timeout inode"
  ++ nl.

(** A socket table with a listener on 127.0.0.1:80 and one on 0.0.0.0:22. *)
Definition tcp_table : string :=
  tcp_header
  ++ "   0: 0100007F:0050 00000000:0000 0A 00000000:00000000 00:00000000 00000000    33        0 20513 1" ++ nl
  ++ "   1: 00000000:0016 00000000:0000 0A 00000000:00000000 00:00000000 00000000     0        0 18432 1" ++ nl.

(** /proc with two processes besides the scanner (99); each sees the same
    socket table.  812 runs as root, 4321 as uid 33. *)
Definition two_owners : ProcFS := {|
  proc_entries := Some ["."; ".."; "self"; "812"; "4321"; "99"; "uptime"];
  file_content := lookup
    [("/proc/812/net/tcp", tcp_table);
     ("/proc/812/comm", "sshd" ++ nl);
     ("/proc/812/status",
       "Name:" ++ tab ++ "sshd" ++ nl ++ "Uid:" ++ tab ++ "0" ++ tab ++ "0" ++ nl);
     ("/proc/4321/net/tcp", tcp_table);
     ("/proc/4321/comm", "nginx" ++ nl);
     ("/proc/4321/status",
       "Name:" ++ tab ++ "nginx" ++ nl ++ "Uid:" ++ tab ++ "33" ++ tab ++ "33" ++ nl);
     ("/proc/99/net/tcp", tcp_table);
     ("/proc/99/comm", "quickdirtyscan" ++ nl);
     ("/proc/99/status",
       "Name:" ++ tab ++ "quickdirtyscan" ++ nl ++ "Uid:" ++ tab ++ "0" ++ nl)]
|}.

(** /proc where only the scanner (99) has the port in its socket table. *)
Definition only_self : ProcFS := {|
  proc_entries := Some ["1"; "99"];
  file_content := lookup
    [("/proc/1/net/tcp", tcp_header);
     ("/proc/1/comm", "init" ++ nl);
     ("/proc/1/status", "Uid:" ++ tab ++ "0" ++ nl);
     ("/proc/99/net/tcp", tcp_table);
     ("/proc/99/comm", "quickdirtyscan" ++ nl);
     ("/proc/99/status", "Uid:" ++ tab ++ "0" ++ nl)]
|}.

(** /proc where the status record of 42 cannot be opened. *)
Definition status_gone : ProcFS := {|
  proc_entries := Some ["42"];
  file_content := lookup
    [("/proc/42/net/tcp", tcp_table);
     ("/proc/42/comm", "httpd" ++ nl)]
|}.

(** /proc where the status record of 42 has no "Uid:" line. *)
Definition status_without_uid : ProcFS := {|
  proc_entries := Some ["42"];
  file_content := lookup
    [("/proc/42/net/tcp", tcp_table);
     ("/proc/42/comm", "httpd" ++ nl);
     ("/proc/42/status", "Name:" ++ tab ++ "httpd" ++ nl ++ "Pid:" ++ tab ++ "42" ++ nl)]
|}.

(** /proc where 42 runs as uid 1000. *)
Definition status_uid_1000 : ProcFS := {|
  proc_entries := Some ["42"];
  file_content := lookup
    [("/proc/42/net/tcp", tcp_table);
     ("/proc/42/comm", "httpd" ++ nl);
     ("/proc/42/status",
       "Name:" ++ tab ++ "httpd" ++ nl ++ "Uid:" ++ tab ++ "1000" ++ tab ++ "1000" ++ nl)]
|}.

(** A user database that knows root and www-data. *)
Definition passwd (uid : Z) : option string :=
  if uid =? 0 then Some "root"
  else if uid =? 33 then Some "www-data"
  else None.

Definition services (port : Z) : option string :=
  if port =? 22 then Some "ssh"
  else if port =? 80 then Some "http"
  else None.

(** 22 takes one connection, 80 and 8080 take any number; every other port
    refuses. *)
Definition host (fs : ProcFS) : World := {|
  getpid := 99;
  socket_ok := fun _ _ => true;
  connect_ok := fun port dial =>
    (port =? 80) || (port =? 8080) || ((port =? 22) && Nat.eqb dial 0);
  getservbyport := services;
  getpwuid := passwd;
  procfs := fun _ => fs
|}.

(** The same host when no descriptor is left for a first socket on 80. *)
Definition host_exhausted (fs : ProcFS) : World := {|
  getpid := 99;
  socket_ok := fun port dial => negb ((port =? 80) && Nat.eqb dial 0);
  connect_ok := connect_ok (host fs);
  getservbyport := services;
  getpwuid := passwd;
  procfs := fun _ => fs
|}.

End Sample.

(** ** Lines as the kernel writes them *)

(** A hexadecimal digit in upper case, as "%X" prints it. *)
Definition hex_char (d : Z) : ascii :=
  if d <? 10 then ascii_of_N (Z.to_N (48 + d)) else ascii_of_N (Z.to_N (55 + d)).

(** A port as "%04X" prints it. *)
Definition hex4 (p : Z) : string :=
  String (hex_char (p / 4096 mod 16))
    (String (hex_char (p / 256 mod 16))
       (String (hex_char (p / 16 mod 16))
          (String (hex_char (p mod 16)) EmptyString))).

Fixpoint all_hex (s : string) : bool :=
  match s with
  | EmptyString => true
  | String c rest =>
      match hex_value c with
      | Some _ => all_hex rest
      | None => false
      end
  end.

Fixpoint all_space (s : string) : bool :=
  match s with
  | EmptyString => true
  | String c rest => isspace c && all_space rest
  end.

Fixpoint has_char (c : ascii) (s : string) : bool :=
  match s with
  | EmptyString => false
  | String c' rest => (c' =? c)%char || has_char c rest
  end.

(** An entry of a socket table: the slot number, right-justified, a colon, the
    local address, a colon, the local port, and the other fields. *)
Definition tcp_entry (pad : nat) (slot addr : string) (local_port : Z)
           (others : string) : string :=
  spaces pad ++ slot ++ ": " ++ addr ++ ":" ++ hex4 local_port ++ others.

(** The line of a status record that gives the user ids, the real one first. *)
Definition uid_line (gap : string) (ruid : Z) (others : string) : string :=
  "Uid:" ++ gap ++ decimal_digits 10 ruid ++ others.

(** ** The PROCESS column, written out *)

(** The text that "%-15s  PID: %-6s  User: %-8s" gives in the 511 characters
    of [process_info], with the functions of the Standard Library alone: the
    text the formatter of the embedding is compared with. *)
Definition blanks (n : nat) : string :=
  string_of_list_ascii (repeat " "%char n).

Definition column (width : nat) (s : string) : string :=
  s ++ blanks (width - String.length s).

Definition record_text (name pid owner : string) : string :=
  substring 0 511
    (column 15 name ++ "  PID: " ++ column 6 pid ++ "  User: " ++ column 8 owner).

(** What the conversion [%[^:]] of line 101 stores into [local_addr[32]],
    whether or not the port that follows can be read: the address field as
    it stands, followed by a NUL. *)
Definition sscanf_tcp_addr (line : string) : option string :=
  match scan_d line with
  | Some (_, String ":" s1) =>
      match scan_not_colon (skip_space s1) with
      | (String c field, _) => Some (String c field)
      | _ => None
      end
  | _ => None
  end.

(** ** More readings of a trace *)

Definition is_file (h : Handle) : bool :=
  match h with
  | HFile _ => true
  | _ => false
  end.

Definition is_printf (e : Event) : bool :=
  match e with
  | EvPrintf _ _ => true
  | _ => false
  end.

(** What is written to the standard output, in order. *)
Definition printed (t : list Event) : list Event := filter is_printf t.

(** The ports the service database is asked about, in order. *)
Definition service_lookup_of (e : Event) : list Z :=
  match e with
  | EvGetservbyport port => [port]
  | _ => []
  end.

Definition service_lookups (t : list Event) : list Z :=
  flat_map service_lookup_of t.

(** The calls of [opendir]. *)
Definition is_opendir (e : Event) : bool :=
  match e with
  | EvOpen HDir _ => true
  | _ => false
  end.

Definition opendirs (t : list Event) : list Event := filter is_opendir t.

(** The streams opened with success, by path, in order. *)
Definition opened_of (e : Event) : list string :=
  match e with
  | EvOpen (HFile path) true => [path]
  | _ => []
  end.

Definition opened (t : list Event) : list string := flat_map opened_of t.

(** Events on the files of a process, and on the user database. *)
Definition file_event (e : Event) : bool :=
  match e with
  | EvOpen (HFile _) _ | EvRelease (HFile _) | EvGetpwuid _ => true
  | _ => false
  end.

(** The sockets and directory streams among the handles held. *)
Definition not_files (held : list Handle) : list Handle :=
  filter (fun h => negb (is_file h)) held.

Definition is_sock (h : Handle) : bool :=
  match h with
  | HSock _ _ => true
  | _ => false
  end.

(** The sockets among the handles held. *)
Definition socks (held : list Handle) : list Handle := filter is_sock held.

(** The largest number of sockets held at any point of a trace that starts
    with [held]. *)
Fixpoint socket_peak (held : list Handle) (t : list Event) : nat :=
  match t with
  | [] => List.length (socks held)
  | e :: later =>
      Nat.max (List.length (socks held)) (socket_peak (step_held held e) later)
  end.

(** A process of which exactly one of the display name and the status record
    can be opened. *)
Definition unpaired (fs : ProcFS) (d_name : string) : bool :=
  match file_content fs (comm_path d_name), file_content fs (status_path d_name) with
  | Some _, None | None, Some _ => true
  | _, _ => false
  end.

(** ** Lemmas on computations and traces *)

Lemma result_bind {A B : Type} (m : IO A) (k : A -> IO B) :
  result (bind m k) = result (k (result m)).
Proof.
  unfold bind, result. destruct m as [a t1]. simpl. destruct (k a). reflexivity.
Qed.

Lemma trace_bind {A B : Type} (m : IO A) (k : A -> IO B) :
  trace (bind m k) = (trace m ++ trace (k (result m)))%list.
Proof.
  unfold bind, result, trace. destruct m as [a t1]. simpl. destruct (k a). reflexivity.
Qed.

Lemma trace_ret {A : Type} (a : A) : trace (ret a) = [].
Proof. reflexivity. Qed.

Lemma result_ret {A : Type} (a : A) : result (ret a) = a.
Proof. reflexivity. Qed.

Lemma trace_emit (e : Event) : trace (emit e) = [e].
Proof. reflexivity. Qed.

Lemma result_pair {A : Type} (a : A) (t : list Event) : result (a, t) = a.
Proof. reflexivity. Qed.

Lemma trace_pair {A : Type} (a : A) (t : list Event) : trace (a, t) = t.
Proof. reflexivity. Qed.

Ltac io_simpl :=
  repeat (progress (rewrite ?trace_bind, ?result_bind, ?trace_ret, ?result_ret,
                      ?trace_emit, ?result_pair, ?trace_pair;
                    cbn [fst snd])).

Lemma flat_map_nil_of_forall {A B : Type} (f : A -> list B) (l : list A) :
  Forall (fun a => f a = []) l -> flat_map f l = [].
Proof.
  induction 1 as [|a l Ha _ IH]; simpl; [reflexivity|]. now rewrite Ha, IH.
Qed.

Lemma flat_map_flat_map {A B C : Type} (f : A -> list B) (g : B -> list C) (l : list A) :
  flat_map g (flat_map f l) = flat_map (fun a => flat_map g (f a)) l.
Proof.
  induction l as [|a l IH]; simpl; [reflexivity|]. now rewrite flat_map_app, IH.
Qed.

(** ** Reading a stream *)

Example sscanf_tcp_entry :
  sscanf_tcp "   0: 0100007F:0050 00000000:0000 0A 00000000:00000000" = Some 80.
Proof. reflexivity. Qed.

Example sscanf_tcp_header :
  sscanf_tcp "  sl  local_address rem_address   st tx_queue rx_queue" = None.
Proof. reflexivity. Qed.

Example sscanf_uid_line :
  sscanf_uid ("Uid:" ++ Sample.tab ++ "1000" ++ Sample.tab ++ "1000") = Some 1000.
Proof. reflexivity. Qed.

Example sscanf_uid_no_number :
  sscanf_uid ("Uid:" ++ Sample.tab ++ "nobody") = None.
Proof. reflexivity. Qed.

Example fgets_chunks_lines :
  fgets_chunks 5 4 ("ab" ++ Sample.nl ++ "cdefghij" ++ Sample.nl ++ "k") =
  ["ab" ++ Sample.nl; "cdef"; "ghij"; Sample.nl; "k"].
Proof. reflexivity. Qed.

(** The lines [fgets] returns are the content of the file, cut in pieces. *)
Lemma fgets_chunks_concat (size : nat) (content : string) :
  forall room, String.concat "" (fgets_chunks size room content) = content.
Proof.
  induction content as [|c rest IH]; intro room; cbn [fgets_chunks];
    [reflexivity|].
  destruct ((c =? newline)%char || (room <=? 1)%nat).
  - specialize (IH (size - 1)%nat).
    destruct (fgets_chunks size (size - 1) rest) as [|chunk chunks];
      cbn [String.concat] in *; cbn [append]; now rewrite <- IH.
  - specialize (IH (room - 1)%nat).
    destruct (fgets_chunks size (room - 1) rest) as [|chunk chunks];
      cbn [String.concat] in *; [now rewrite <- IH|].
    destruct chunks; cbn [append]; now rewrite <- IH.
Qed.

(** No line is empty, so a loop over [fgets] ends with the file. *)
Lemma fgets_chunks_nonempty (size : nat) (content : string) :
  forall room, Forall (fun chunk => chunk <> "") (fgets_chunks size room content).
Proof.
  induction content as [|c rest IH]; intro room; cbn [fgets_chunks];
    [constructor|].
  destruct ((c =? newline)%char || (room <=? 1)%nat).
  - constructor; [discriminate|apply IH].
  - specialize (IH (room - 1)%nat).
    destruct (fgets_chunks size (room - 1) rest) as [|chunk chunks].
    + constructor; [discriminate|constructor].
    + inversion IH; subst. constructor; [discriminate|assumption].
Qed.

(** ** The names of the entries of /proc *)

Lemma digit_char_code (d : Z) : 0 <= d < 10 -> code (digit_char d) = 48 + d.
Proof.
  intro Hd. unfold code, digit_char.
  rewrite N_ascii_embedding by lia. lia.
Qed.

Lemma isdigit_first (s : string) :
  isdigit (first_char s) = true ->
  skip_space s = s /\ scan_sign s = (false, s).
Proof.
  destruct s as [|c rest]; cbn [first_char]; [discriminate|].
  destruct c as [[] [] [] [] [] [] [] []]; intro H; try discriminate H;
    split; reflexivity.
Qed.

Lemma all_digits_app (x y : string) :
  all_digits (x ++ y) = all_digits x && all_digits y.
Proof.
  induction x as [|c x IH]; cbn [append all_digits]; [reflexivity|].
  now rewrite IH, andb_assoc.
Qed.

Lemma digits_value_app (x y : string) :
  forall acc, digits_value acc (x ++ y) = digits_value (digits_value acc x) y.
Proof.
  induction x as [|c x IH]; intro acc; cbn [append digits_value];
    [reflexivity|apply IH].
Qed.

Lemma scan_digits_all (x : string) :
  all_digits x = true ->
  forall acc n,
    scan_digits acc n x = ((n + String.length x)%nat, digits_value acc x, "").
Proof.
  induction x as [|c x IH]; cbn [all_digits scan_digits digits_value String.length];
    intros Hx acc n.
  - now rewrite Nat.add_0_r.
  - apply andb_true_iff in Hx. destruct Hx as [Hc Hx].
    rewrite Hc, (IH Hx). now rewrite Nat.add_succ_r.
Qed.

Lemma decimal_digits_all (fuel : nat) :
  forall n, 0 <= n -> all_digits (decimal_digits fuel n) = true.
Proof.
  induction fuel as [|fuel IH]; intros n Hn; cbn [decimal_digits];
    [reflexivity|].
  rewrite all_digits_app. cbn [all_digits].
  assert (Hd : isdigit (digit_char (n mod 10)) = true).
  { unfold isdigit. rewrite digit_char_code by (apply Z.mod_pos_bound; lia).
    pose proof (Z.mod_pos_bound n 10). lia. }
  rewrite Hd. destruct (n <? 10); [reflexivity|].
  rewrite IH by (apply Z.div_pos; lia). reflexivity.
Qed.

Lemma decimal_digits_value (fuel : nat) :
  forall n, 0 <= n < 10 ^ Z.of_nat fuel ->
            digits_value 0 (decimal_digits fuel n) = n.
Proof.
  induction fuel as [|fuel IH]; intros n Hn; cbn [decimal_digits].
  - simpl in Hn. cbn [digits_value]. lia.
  - rewrite digits_value_app. cbn [digits_value].
    rewrite digit_char_code by (apply Z.mod_pos_bound; lia).
    destruct (n <? 10) eqn:Hsmall.
    + apply Z.ltb_lt in Hsmall. cbn [digits_value].
      rewrite Z.mod_small by lia. lia.
    + apply Z.ltb_ge in Hsmall. rewrite IH.
      * pose proof (Z.div_mod n 10). lia.
      * rewrite Nat2Z.inj_succ, Z.pow_succ_r in Hn by lia.
        split; [apply Z.div_pos; lia|].
        apply Z.div_lt_upper_bound; lia.
Qed.

Lemma decimal_digits_first (fuel : nat) (n : Z) :
  0 <= n -> isdigit (first_char (decimal_digits (S fuel) n)) = true.
Proof.
  intro Hn. pose proof (decimal_digits_all (S fuel) n Hn) as Hall.
  cbn [decimal_digits] in *.
  destruct ((if n <? 10 then "" else decimal_digits fuel (n / 10))
            ++ String (digit_char (n mod 10)) "") as [|c rest] eqn:Hs.
  - destruct (if n <? 10 then "" else decimal_digits fuel (n / 10)); discriminate.
  - cbn [all_digits first_char] in *. now apply andb_true_iff in Hall.
Qed.

(** [atoi] reads back the number a process is listed under. *)
Lemma atoi_proc_entry_name (pid : Z) :
  0 <= pid < 2 ^ 31 -> atoi (proc_entry_name pid) = pid.
Proof.
  intro Hpid. unfold atoi, strtol10, proc_entry_name.
  destruct (isdigit_first (decimal_digits 10 pid)) as [-> ->];
    [apply decimal_digits_first; lia|].
  rewrite scan_digits_all by (apply decimal_digits_all; lia).
  rewrite decimal_digits_value by (simpl; lia).
  unfold LONG_MAX, wrap_int. rewrite Z.min_r by lia.
  rewrite Z.mod_small; lia.
Qed.

(** ** The correlator: what it returns *)

Section CorrelatorFacts.

Variable our_pid : Z.
Variable fs : ProcFS.
Variable pwd : Z -> option string.

Lemma describe_process_result (d_name process_info : string) :
  result (describe_process fs pwd d_name process_info) =
  match record_of fs pwd d_name with
  | Some r => render r
  | None => process_info
  end.
Proof.
  unfold describe_process, record_of, lines_of, fopen.
  destruct (file_content fs (comm_path d_name)) as [comm|];
    destruct (file_content fs (status_path d_name)) as [status|];
    cbn [option_map]; io_simpl; try reflexivity.
  all: destruct (fgets_chunks 256 255 comm) as [|buf comm']; io_simpl;
    reflexivity.
Qed.

(** The loop over a socket table reaches line 106 exactly when some entry
    has the port. *)
Lemma scan_tcp_table_result (port : Z) (d_name : string) (table : FILE)
      (process_info : string) :
  fst (result (scan_tcp_table fs pwd port d_name table process_info)) =
  if existsb (entry_has_port port) table
  then result (describe_process fs pwd d_name process_info)
  else process_info.
Proof.
  induction table as [|buf rest IH]; simpl; [reflexivity|].
  unfold entry_has_port at 1.
  destruct (sscanf_tcp (c_str buf)) as [local_port|]; simpl; [|exact IH].
  destruct (local_port =? port); simpl; [|exact IH].
  io_simpl. reflexivity.
Qed.

Lemma readdir_loop_result (port : Z) (entries : list string) :
  forall process_info,
    result (readdir_loop our_pid fs pwd port entries process_info) =
    fold_left (round our_pid fs pwd port) entries process_info.
Proof.
  induction entries as [|d_name later IH]; intro process_info; simpl;
    [reflexivity|].
  unfold round at 2, reports, matches, table_has_port, lines_of.
  destruct (skipped our_pid d_name); simpl; [apply IH|].
  unfold fopen.
  destruct (file_content fs (net_tcp_path d_name)) as [content|];
    cbn [option_map]; io_simpl; [|apply IH].
  rewrite IH, scan_tcp_table_result, describe_process_result.
  destruct (existsb (entry_has_port port) (tl (fgets_chunks 256 255 content)));
    reflexivity.
Qed.

Lemma get_process_info_result (port : Z) :
  result (get_process_info our_pid fs pwd port) =
  match proc_entries fs with
  | Some entries => fold_left (round our_pid fs pwd port) entries ""
  | None => ""
  end.
Proof.
  unfold get_process_info.
  destruct (proc_entries fs) as [entries|]; [|reflexivity].
  io_simpl. apply readdir_loop_result.
Qed.

Lemma fold_round_silent (port : Z) (entries : list string) :
  Forall (fun d => reports our_pid fs pwd port d = None) entries ->
  forall process_info, fold_left (round our_pid fs pwd port) entries process_info = process_info.
Proof.
  induction 1 as [|d later Hd _ IH]; intro process_info; simpl; [reflexivity|].
  unfold round at 2. rewrite Hd. apply IH.
Qed.

Lemma fold_round_last (port : Z) (before after : list string) (d : string)
      (r : ProcessRecord) (process_info : string) :
  reports our_pid fs pwd port d = Some r ->
  Forall (fun d' => reports our_pid fs pwd port d' = None) after ->
  fold_left (round our_pid fs pwd port) (before ++ d :: after) process_info = render r.
Proof.
  intros Hd Hafter. rewrite fold_left_app. simpl.
  rewrite (fold_round_silent port after Hafter).
  unfold round. now rewrite Hd.
Qed.

(** Either every entry is silent, or there is a last one that reports. *)
Lemma last_reporting (port : Z) (entries : list string) :
  Forall (fun d => reports our_pid fs pwd port d = None) entries \/
  exists before d after r,
    entries = (before ++ d :: after)%list /\
    reports our_pid fs pwd port d = Some r /\
    Forall (fun d' => reports our_pid fs pwd port d' = None) after.
Proof.
  induction entries as [|d later IH]; [left; constructor|].
  destruct IH as [Hsilent | (before & d' & after & r & -> & Hd' & Hafter)].
  - destruct (reports our_pid fs pwd port d) as [r|] eqn:Hd.
    + right. exists [], d, later, r. auto.
    + left. constructor; assumption.
  - right. exists (d :: before), d', after, r. auto.
Qed.

Lemma reports_not_self (port : Z) (d : string) (r : ProcessRecord) :
  reports our_pid fs pwd port d = Some r ->
  processId r = d /\ atoi d <> our_pid /\ isdigit (first_char d) = true /\
  table_has_port fs port d = true /\ record_of fs pwd d = Some r.
Proof.
  unfold reports, matches, skipped. intro H.
  destruct (isdigit (first_char d)); simpl in H; [|discriminate].
  destruct (atoi d =? our_pid) eqn:Hpid; simpl in H; [discriminate|].
  destruct (table_has_port fs port d); simpl in H; [|discriminate].
  apply Z.eqb_neq in Hpid. repeat split; try assumption.
  unfold record_of in H.
  destruct (lines_of fs (comm_path d)) as [[|buf comm]|]; try discriminate.
  destruct (lines_of fs (status_path d)); try discriminate.
  now inversion H.
Qed.

(** The formatted record is never the empty string: a name is not NUL at its
    first character, and an empty name is padded with spaces. *)
Lemma render_first_char (d : string) (r : ProcessRecord) :
  record_of fs pwd d = Some r -> (code (first_char (render r)) =? 0) = false.
Proof.
  unfold record_of. intro H.
  destruct (lines_of fs (comm_path d)) as [[|buf comm]|]; try discriminate.
  destruct (lines_of fs (status_path d)); try discriminate.
  inversion H; subst r; clear H.
  unfold render, format_process_info, snprintf, pad_right; cbn [executableName].
  destruct buf as [|c rest]; [reflexivity|].
  cbn [c_str]. destruct (code c =? 0) eqn:Hc; [reflexivity|].
  cbn [cut_newline]. destruct (c =? newline)%char; [reflexivity|].
  simpl. exact Hc.
Qed.

End CorrelatorFacts.

(** ** The correlator: what it calls *)

Lemma only_proc_app (t1 t2 : list Event) :
  only_proc t1 -> only_proc t2 -> only_proc (t1 ++ t2).
Proof. intros H1 H2. apply Forall_app. split; assumption. Qed.

Lemma only_proc_rows (t : list Event) : only_proc t -> rows t = [].
Proof.
  intro H. apply flat_map_nil_of_forall. revert H. apply Forall_impl.
  intros [[| |]| | [| |] | | |] He; try discriminate; reflexivity.
Qed.

Lemma only_proc_probes (t : list Event) : only_proc t -> probes t = [].
Proof.
  intro H. apply flat_map_nil_of_forall. revert H. apply Forall_impl.
  intros [[| |]| | [| |] | | |] He; try discriminate; reflexivity.
Qed.

Lemma only_proc_connects (dial : nat) (t : list Event) :
  only_proc t -> connects dial t = [].
Proof.
  intro H. apply flat_map_nil_of_forall. revert H. apply Forall_impl.
  intros [[| |]| | [| |] | | |] He; try discriminate; reflexivity.
Qed.

Section CorrelatorCalls.

Variable our_pid : Z.
Variable fs : ProcFS.
Variable pwd : Z -> option string.

Lemma fopen_only_proc (path : string) : only_proc (trace (fopen fs path)).
Proof.
  unfold fopen. destruct (file_content fs path); repeat constructor.
Qed.

Lemma describe_process_only_proc (d_name process_info : string) :
  only_proc (trace (describe_process fs pwd d_name process_info)).
Proof.
  unfold describe_process. io_simpl.
  repeat apply only_proc_app; try apply fopen_only_proc.
  destruct (result (fopen fs (comm_path d_name))) as [[|buf comm]|];
    destruct (result (fopen fs (status_path d_name))) as [status|];
    io_simpl; repeat constructor.
Qed.

Lemma scan_tcp_table_only_proc (port : Z) (d_name : string) (table : FILE)
      (process_info : string) :
  only_proc (trace (scan_tcp_table fs pwd port d_name table process_info)).
Proof.
  induction table as [|buf rest IH]; simpl; [constructor|].
  destruct (sscanf_tcp (c_str buf)) as [local_port|]; [|exact IH].
  destruct (local_port =? port); [|exact IH].
  io_simpl. rewrite app_nil_r. apply describe_process_only_proc.
Qed.

Lemma readdir_loop_only_proc (port : Z) (entries : list string) :
  forall process_info,
    only_proc (trace (readdir_loop our_pid fs pwd port entries process_info)).
Proof.
  induction entries as [|d_name later IH]; intro process_info; simpl;
    [constructor|].
  destruct (skipped our_pid d_name); [apply IH|].
  io_simpl. apply only_proc_app; [apply fopen_only_proc|].
  destruct (result (fopen fs (net_tcp_path d_name))) as [table|]; [|apply IH].
  io_simpl. apply only_proc_app; [apply scan_tcp_table_only_proc|].
  apply only_proc_app; [repeat constructor | apply IH].
Qed.

Lemma get_process_info_only_proc (port : Z) :
  only_proc (trace (get_process_info our_pid fs pwd port)).
Proof.
  unfold get_process_info.
  destruct (proc_entries fs) as [entries|]; [|repeat constructor].
  io_simpl. apply only_proc_app; [repeat constructor|].
  apply only_proc_app; [apply readdir_loop_only_proc|].
  repeat constructor.
Qed.

End CorrelatorCalls.

(** ** The prober and the sweep *)

Section ScannerFacts.

Variable W : World.

Lemma check_port_state_result (port : Z) :
  result (check_port_state W port) =
  if socket_ok W port 1 then if connect_ok W port 1 then 2 else 1 else 0.
Proof.
  unfold check_port_state, call_socket, call_connect. io_simpl.
  destruct (socket_ok W port 1); cbn [negb]; io_simpl; [|reflexivity].
  destruct (connect_ok W port 1); io_simpl; reflexivity.
Qed.

Lemma check_port_state_trace (port : Z) :
  trace (check_port_state W port) =
  if socket_ok W port 1
  then [EvOpen (HSock port 1) true;
        EvConnect port 1 (connect_ok W port 1);
        EvRelease (HSock port 1)]
  else [EvOpen (HSock port 1) false].
Proof.
  unfold check_port_state, call_socket, call_connect, close. io_simpl.
  destruct (socket_ok W port 1); cbn [negb]; io_simpl; [|reflexivity].
  destruct (connect_ok W port 1); io_simpl; reflexivity.
Qed.

(** The calls of one round of the sweep. *)
Lemma scan_port_trace (port : Z) :
  trace (scan_port W port) =
  if socket_ok W port 0 then
    if connect_ok W port 0 then
      ([EvOpen (HSock port 0) true; EvConnect port 0 true; EvGetservbyport port]
         ++ trace (check_port_state W port)
         ++ correlation W port
         ++ [row_event (row_for W port); EvRelease (HSock port 0)])%list
    else [EvOpen (HSock port 0) true; EvConnect port 0 false;
          EvRelease (HSock port 0)]
  else [EvOpen (HSock port 0) false].
Proof.
  unfold scan_port, call_socket, call_connect, call_getservbyport, close,
    print_row, correlation, row_for, row_event.
  io_simpl.
  destruct (socket_ok W port 0); cbn [negb]; io_simpl; [|reflexivity].
  destruct (connect_ok W port 0); io_simpl; [|reflexivity].
  cbn [row_port row_state row_service row_process].
  rewrite <- !app_assoc. reflexivity.
Qed.

Lemma scan_port_rows (port : Z) :
  rows (trace (scan_port W port)) =
  if first_dial_ok W port then [row_for W port] else [].
Proof.
  rewrite scan_port_trace. unfold first_dial_ok.
  destruct (socket_ok W port 0); [|reflexivity].
  destruct (connect_ok W port 0); [|reflexivity].
  unfold rows. rewrite !flat_map_app.
  fold (rows (correlation W port)).
  rewrite (only_proc_rows (correlation W port))
    by apply get_process_info_only_proc.
  rewrite check_port_state_trace.
  destruct (socket_ok W port 1); destruct (row_for W port); reflexivity.
Qed.

Lemma scan_port_probes (port : Z) : probes (trace (scan_port W port)) = [port].
Proof.
  rewrite scan_port_trace.
  destruct (socket_ok W port 0); [|reflexivity].
  destruct (connect_ok W port 0); [|reflexivity].
  unfold probes. rewrite !flat_map_app.
  fold (probes (correlation W port)).
  rewrite (only_proc_probes (correlation W port))
    by apply get_process_info_only_proc.
  rewrite check_port_state_trace.
  destruct (socket_ok W port 1); reflexivity.
Qed.

Lemma scan_port_first_dials (port : Z) :
  connects 0 (trace (scan_port W port)) =
  if socket_ok W port 0 then [port] else [].
Proof.
  rewrite scan_port_trace.
  destruct (socket_ok W port 0); [|reflexivity].
  destruct (connect_ok W port 0); [|reflexivity].
  unfold connects. rewrite !flat_map_app.
  fold (connects 0 (correlation W port)).
  rewrite (only_proc_connects 0 (correlation W port))
    by apply get_process_info_only_proc.
  rewrite check_port_state_trace.
  destruct (socket_ok W port 1); reflexivity.
Qed.

Lemma scan_port_second_dials (port : Z) :
  connects 1 (trace (scan_port W port)) =
  if first_dial_ok W port && socket_ok W port 1 then [port] else [].
Proof.
  rewrite scan_port_trace. unfold first_dial_ok.
  destruct (socket_ok W port 0); [|reflexivity].
  destruct (connect_ok W port 0); [|reflexivity].
  unfold connects. rewrite !flat_map_app.
  fold (connects 1 (correlation W port)).
  rewrite (only_proc_connects 1 (correlation W port))
    by apply get_process_info_only_proc.
  rewrite check_port_state_trace.
  destruct (socket_ok W port 1); reflexivity.
Qed.

(** The sweep, started at [port] with a round left for every port up to
    [END_PORT], runs the body once for each of them, in ascending order, and
    is left by its condition. *)
Lemma sweep_spec (fuel : nat) :
  forall port,
    port + Z.of_nat fuel = END_PORT + 1 ->
    trace (sweep W fuel port) =
      flat_map (fun q => trace (scan_port W q))
               (map (fun i => port + Z.of_nat i) (seq 0 fuel)) /\
    result (sweep W fuel port) = END_PORT + 1.
Proof.
  induction fuel as [|fuel IH]; intros port Hport.
  - simpl. split; [reflexivity|]. rewrite result_ret. simpl in Hport. lia.
  - cbn [sweep].
    replace (port <=? END_PORT) with true by (symmetry; apply Z.leb_le; lia).
    io_simpl.
    destruct (IH (port + 1)) as [Ht Hr]; [lia|].
    rewrite Ht, Hr. split; [|reflexivity].
    cbn [seq map flat_map]. rewrite Z.add_0_r. f_equal.
    rewrite <- seq_shift, map_map. f_equal.
    apply map_ext. intro i. lia.
Qed.

Lemma main_trace :
  trace (main W) =
  (banner ++ flat_map (fun q => trace (scan_port W q)) port_range)%list.
Proof.
  unfold main, banner, port_range. io_simpl. rewrite app_nil_r. f_equal.
  apply sweep_spec. unfold START_PORT, END_PORT. lia.
Qed.

(** The loop of [main] is left because [port] has passed [END_PORT]. *)
Lemma main_sweep_complete :
  result (sweep W (Z.to_nat (END_PORT - START_PORT + 1)) START_PORT) = END_PORT + 1.
Proof. apply sweep_spec. unfold START_PORT, END_PORT. lia. Qed.

End ScannerFacts.

(** ** The ports of the sweep *)

Lemma port_range_In (p : Z) : In p port_range <-> 1 <= p <= 65535.
Proof.
  unfold port_range, START_PORT, END_PORT. rewrite in_map_iff. split.
  - intros (i & <- & Hi). apply in_seq in Hi. lia.
  - intro Hp. exists (Z.to_nat (p - 1)). split; [lia|]. apply in_seq. lia.
Qed.

Lemma ascending_from (start : Z) (len : nat) :
  forall first,
    StronglySorted Z.lt (map (fun i => start + Z.of_nat i) (seq first len)).
Proof.
  induction len as [|len IH]; intro first; simpl; constructor.
  - apply IH.
  - apply Forall_forall. intros p Hp.
    apply in_map_iff in Hp. destruct Hp as (i & <- & Hi).
    apply in_seq in Hi. lia.
Qed.

Lemma port_range_ascending : StronglySorted Z.lt port_range.
Proof. apply ascending_from. Qed.

Lemma port_range_NoDup : NoDup port_range.
Proof.
  unfold port_range. generalize (Z.to_nat (END_PORT - START_PORT + 1)) 0%nat.
  intros len. induction len as [|len IH]; intro first; cbn [seq map];
    constructor.
  - rewrite in_map_iff. intros (i & Hi & Hin). apply in_seq in Hin.
    cbv beta in Hi. lia.
  - apply IH.
Qed.

(** ** The whole run *)

Section RunFacts.

Variable W : World.

Lemma main_rows :
  rows (trace (main W)) = map (row_for W) (filter (first_dial_ok W) port_range).
Proof.
  rewrite main_trace. unfold rows. rewrite flat_map_app.
  change (flat_map row_of banner) with (@nil Row). cbn [app].
  rewrite flat_map_flat_map.
  induction port_range as [|p ports IH]; [reflexivity|].
  cbn [flat_map filter]. rewrite IH.
  fold (rows (trace (scan_port W p))). rewrite scan_port_rows.
  destruct (first_dial_ok W p); reflexivity.
Qed.

Lemma main_row_ports :
  map row_port (rows (trace (main W))) = filter (first_dial_ok W) port_range.
Proof.
  rewrite main_rows, map_map. apply map_id.
Qed.

Lemma main_probes : probes (trace (main W)) = port_range.
Proof.
  rewrite main_trace. unfold probes. rewrite flat_map_app.
  change (flat_map probe_of banner) with (@nil Z). cbn [app].
  rewrite flat_map_flat_map.
  induction port_range as [|p ports IH]; [reflexivity|].
  cbn [flat_map]. rewrite IH.
  fold (probes (trace (scan_port W p))). now rewrite scan_port_probes.
Qed.

Lemma main_first_dials :
  connects 0 (trace (main W)) = filter (fun p => socket_ok W p 0) port_range.
Proof.
  rewrite main_trace. unfold connects. rewrite flat_map_app.
  change (flat_map (connect_of 0) banner) with (@nil Z). cbn [app].
  rewrite flat_map_flat_map.
  induction port_range as [|p ports IH]; [reflexivity|].
  cbn [flat_map filter]. rewrite IH.
  fold (connects 0 (trace (scan_port W p))). rewrite scan_port_first_dials.
  destruct (socket_ok W p 0); reflexivity.
Qed.

Lemma main_second_dials :
  connects 1 (trace (main W)) =
  filter (fun p => first_dial_ok W p && socket_ok W p 1) port_range.
Proof.
  rewrite main_trace. unfold connects. rewrite flat_map_app.
  change (flat_map (connect_of 1) banner) with (@nil Z). cbn [app].
  rewrite flat_map_flat_map.
  induction port_range as [|p ports IH]; [reflexivity|].
  cbn [flat_map filter]. rewrite IH.
  fold (connects 1 (trace (scan_port W p))). rewrite scan_port_second_dials.
  destruct (first_dial_ok W p && socket_ok W p 1); reflexivity.
Qed.

End RunFacts.

Lemma proc_event_socket_port (e : Event) :
  proc_event e = true -> socket_port e = None.
Proof.
  destruct e as [[| |]| | [| |] | | |]; simpl; intro H;
    try discriminate; reflexivity.
Qed.

Lemma scan_port_socket_ports (W : World) (q : Z) (e : Event) (p : Z) :
  In e (trace (scan_port W q)) -> socket_port e = Some p -> p = q.
Proof.
  rewrite scan_port_trace, check_port_state_trace. intros Hin Hp.
  assert (Hcorr : In e (correlation W q) -> p = q).
  { intro Hc.
    pose proof (get_process_info_only_proc (getpid W) (procfs W q) (getpwuid W) q)
      as Hall.
    unfold only_proc in Hall. rewrite Forall_forall in Hall.
    apply Hall, proc_event_socket_port in Hc. congruence. }
  destruct (socket_ok W q 0); [destruct (connect_ok W q 0)|].
  - rewrite !in_app_iff in Hin.
    destruct Hin as [Hin | [Hin | [Hin | Hin]]]; [| |auto|].
    + simpl in Hin. destruct Hin as [<- | [<- | [<- | []]]]; simpl in Hp; congruence.
    + destruct (socket_ok W q 1); simpl in Hin.
      * destruct Hin as [<- | [<- | [<- | []]]]; simpl in Hp; congruence.
      * destruct Hin as [<- | []]; simpl in Hp; congruence.
    + simpl in Hin. destruct Hin as [<- | [<- | []]]; simpl in Hp; congruence.
  - simpl in Hin. destruct Hin as [<- | [<- | [<- | []]]]; simpl in Hp; congruence.
  - simpl in Hin. destruct Hin as [<- | []]; simpl in Hp; congruence.
Qed.

Lemma main_socket_ports (W : World) (e : Event) (p : Z) :
  In e (trace (main W)) -> socket_port e = Some p -> In p port_range.
Proof.
  rewrite main_trace, in_app_iff. intros [Hin | Hin] Hp.
  - unfold banner in Hin. simpl in Hin.
    destruct Hin as [<- | [<- | [<- | [<- | []]]]]; discriminate.
  - apply in_flat_map in Hin. destruct Hin as (q & Hq & Hin).
    now rewrite (scan_port_socket_ports W q e p Hin Hp).
Qed.

Lemma state_name_classified (port_state : Z) : classified (state_name port_state).
Proof.
  unfold classified, state_name.
  destruct (port_state =? 2); [auto|]. destruct (port_state =? 1); auto.
Qed.

(** ** The prober *)

(** C1.  When the first dial to a port succeeds, one row is printed for it, and
    its state follows the second dial: LISTENING when the second socket is
    created and connects, ESTABLISHED when it is created and does not connect,
    OPEN when it cannot be created; the second dial goes to the same port. *)
Theorem two_dial_policy (W : World) (port : Z) :
  socket_ok W port 0 = true ->
  connect_ok W port 0 = true ->
  (exists service process,
      rows (trace (scan_port W port)) =
      [ {| row_port := port;
           row_state := if socket_ok W port 1
                        then if connect_ok W port 1 then "LISTENING"
                             else "ESTABLISHED"
                        else "OPEN";
           row_service := service;
           row_process := process |} ]) /\
  result (check_port_state W port) =
    (if socket_ok W port 1 then if connect_ok W port 1 then 2 else 1 else 0) /\
  connects 1 (trace (scan_port W port)) =
    (if socket_ok W port 1 then [port] else []).
Proof.
  intros Hsock Hconn. split; [|split].
  - rewrite scan_port_rows. unfold first_dial_ok. rewrite Hsock, Hconn.
    cbn [andb]. unfold row_for. rewrite check_port_state_result.
    eexists _, _. do 2 f_equal.
    destruct (socket_ok W port 1); [destruct (connect_ok W port 1)|]; reflexivity.
  - apply check_port_state_result.
  - rewrite scan_port_second_dials. unfold first_dial_ok.
    now rewrite Hsock, Hconn.
Qed.

Lemma two_dial_policy_witness :
  connects 1 (trace (scan_port (Sample.host Sample.two_owners) 22)) = [22] /\
  result (check_port_state (Sample.host Sample.two_owners) 22) = 1.
Proof.
  destruct (two_dial_policy (Sample.host Sample.two_owners) 22 eq_refl eq_refl)
    as (_ & Hstate & Hdial).
  split; [exact Hdial | exact Hstate].
Defined.

(** ** The sweep *)


(** C6.  When the first dial to a port fails, or its socket cannot be created,
    the round of that port makes no other call than the failed attempt and
    the release of its socket: no second dial, no state detection, no look at
    /proc, no row.  Nowhere in the run is the port dialled a second time or
    given a row, and the sweep goes on to the next port. *)
Theorem closed_port_skipped (W : World) (port : Z) :
  first_dial_ok W port = false ->
  trace (scan_port W port) =
    (if socket_ok W port 0
     then [EvOpen (HSock port 0) true; EvConnect port 0 false;
           EvRelease (HSock port 0)]
     else [EvOpen (HSock port 0) false]) /\
  ~ In port (connects 1 (trace (main W))) /\
  ~ In port (map row_port (rows (trace (main W)))) /\
  (forall fuel,
      port <= END_PORT ->
      trace (sweep W (S fuel) port) =
      (trace (scan_port W port) ++ trace (sweep W fuel (port + 1)))%list).
Proof.
  intro Hclosed. split; [|split; [|split]].
  - rewrite scan_port_trace. unfold first_dial_ok in Hclosed.
    destruct (socket_ok W port 0); [|reflexivity].
    destruct (connect_ok W port 0); [discriminate|reflexivity].
  - rewrite main_second_dials, filter_In. intros [_ H].
    rewrite Hclosed in H. discriminate.
  - rewrite main_row_ports, filter_In. intros [_ H].
    rewrite Hclosed in H. discriminate.
  - intros fuel Hport. cbn [sweep].
    replace (port <=? END_PORT) with true by (symmetry; now apply Z.leb_le).
    now rewrite trace_bind.
Qed.

Lemma closed_port_skipped_witness :
  trace (scan_port (Sample.host Sample.two_owners) 23) =
    [EvOpen (HSock 23 0) true; EvConnect 23 0 false; EvRelease (HSock 23 0)] /\
  trace (scan_port (Sample.host_exhausted Sample.two_owners) 80) =
    [EvOpen (HSock 80 0) false].
Proof.
  split.
  - exact (proj1 (closed_port_skipped (Sample.host Sample.two_owners) 23 eq_refl)).
  - exact (proj1 (closed_port_skipped
                    (Sample.host_exhausted Sample.two_owners) 80 eq_refl)).
Defined.

(** C7.  Two runs in which the sockets and the connections behave alike print
    the same ports with the same states, whatever /proc, the process
    identifier, the user database and the service database are in each; and
    every state printed is LISTENING, ESTABLISHED or OPEN. *)
Theorem classification_ignores_process_table
        (sockets connections : Z -> nat -> bool) (pid1 pid2 : Z)
        (serv1 serv2 pw1 pw2 : Z -> option string) (proc1 proc2 : Z -> ProcFS) :
  let W1 := {| getpid := pid1; socket_ok := sockets; connect_ok := connections;
               getservbyport := serv1; getpwuid := pw1; procfs := proc1 |} in
  let W2 := {| getpid := pid2; socket_ok := sockets; connect_ok := connections;
               getservbyport := serv2; getpwuid := pw2; procfs := proc2 |} in
  map (fun r => (row_port r, row_state r)) (rows (trace (main W1))) =
  map (fun r => (row_port r, row_state r)) (rows (trace (main W2))) /\
  Forall (fun r => classified (row_state r)) (rows (trace (main W1))) /\
  (forall port,
      result (check_port_state W1 port) = result (check_port_state W2 port)).
Proof.
  intros W1 W2. split; [|split].
  - rewrite !main_rows, !map_map.
    change (first_dial_ok W2) with (first_dial_ok W1).
    apply map_ext. intro p. unfold row_for. cbn [row_port row_state].
    now rewrite !check_port_state_result.
  - rewrite main_rows. apply Forall_map, Forall_forall. intros p _.
    apply state_name_classified.
  - intro port. now rewrite !check_port_state_result.
Qed.

(** The scenario of the specification: only 22, 80 and 8080 are open; 22
    takes a single connection, 80 and 8080 any number. *)
Example full_sweep_scenario :
  map (fun r => (row_port r, row_state r, row_service r))
      (rows (trace (main (Sample.host Sample.two_owners)))) =
  [(22, "ESTABLISHED", "ssh"); (80, "LISTENING", "http");
   (8080, "LISTENING", "unknown")].
Proof. vm_compute. reflexivity. Qed.

(** ** The correlator *)

Lemma reports_iff (our_pid : Z) (fs : ProcFS) (pwd : Z -> option string)
      (port : Z) (d : string) (r : ProcessRecord) :
  reports our_pid fs pwd port d = Some r <->
  matches our_pid fs port d = true /\ record_of fs pwd d = Some r.
Proof.
  unfold reports. destruct (matches our_pid fs port d); split;
    try tauto; try discriminate.
  intros [H _]. discriminate.
Qed.

Lemma silent_of_no_match (our_pid : Z) (fs : ProcFS) (pwd : Z -> option string)
      (port : Z) (entries : list string) :
  Forall (fun d => matches our_pid fs port d = false) entries ->
  Forall (fun d => reports our_pid fs pwd port d = None) entries.
Proof.
  apply Forall_impl. intros d Hd. unfold reports. now rewrite Hd.
Qed.

(** The loop over a socket table is left at the first entry with the port: the
    process is described once, and the entries below are not read. *)
Lemma scan_tcp_table_first_match (fs : ProcFS) (pwd : Z -> option string)
      (port : Z) (d_name : string) (above below : FILE) (buf process_info : string) :
  Forall (fun b => entry_has_port port b = false) above ->
  entry_has_port port buf = true ->
  scan_tcp_table fs pwd port d_name (above ++ buf :: below)%list process_info =
  (info <- describe_process fs pwd d_name process_info ;; ret (info, below)).
Proof.
  intros Habove Hbuf. induction Habove as [|b above Hb _ IH]; cbn [app scan_tcp_table].
  - unfold entry_has_port in Hbuf.
    destruct (sscanf_tcp (c_str buf)) as [local_port|]; [|discriminate].
    now rewrite Hbuf.
  - unfold entry_has_port in Hb.
    destruct (sscanf_tcp (c_str b)) as [local_port|]; [|exact IH].
    now rewrite Hb.
Qed.

(** First-match-wins, as the specification states it, fails: with two
    processes whose socket tables list port 80, 812 enumerated before 4321,
    the record returned is the one of 4321. *)
Lemma first_match_overwritten :
  (first_match_wins 99 Sample.two_owners Sample.passwd 80 -> False) /\
  matches 99 Sample.two_owners 80 "812" = true /\
  result (get_process_info 99 Sample.two_owners Sample.passwd 80) =
    "nginx            PID: 4321    User: www-data".
Proof.
  split; [|split; reflexivity].
  intro H.
  specialize (H ["."; ".."; "self"] "812" ["4321"; "99"; "uptime"]
                {| executableName := "sshd"; processId := "812";
                   ownerName := "root" |}
                eq_refl).
  assert (Hbefore : Forall (fun d' => matches 99 Sample.two_owners 80 d' = false)
                           ["."; ".."; "self"])
    by (repeat constructor).
  specialize (H Hbefore eq_refl eq_refl).
  vm_compute in H. discriminate H.
Qed.

(** C2.  The record of the first process that has the port is not kept: with
    812 listed before 4321 and port 80 in the socket tables of both, the
    buffer holds the record of 812 once 812 has been looked at, the loop over
    /proc goes on, and what is returned is the record of 4321. *)
Theorem later_match_replaces_first :
  proc_entries Sample.two_owners =
    Some ["."; ".."; "self"; "812"; "4321"; "99"; "uptime"] /\
  matches 99 Sample.two_owners 80 "812" = true /\
  matches 99 Sample.two_owners 80 "4321" = true /\
  result (readdir_loop 99 Sample.two_owners Sample.passwd 80
            ["."; ".."; "self"; "812"] "") =
    "sshd             PID: 812     User: root    " /\
  result (get_process_info 99 Sample.two_owners Sample.passwd 80) =
    "nginx            PID: 4321    User: www-data".
Proof. repeat split; vm_compute; reflexivity. Qed.

(** What the loop over /proc does in general: the record returned is the one
    of the last process, in the order of enumeration, whose socket table lists
    the port and whose display name and status record can be read.  Within
    one socket table the scan stops at the first entry with the port.  When
    no process has the port, the empty string is returned. *)
Theorem last_match_wins (our_pid : Z) (fs : ProcFS) (pwd : Z -> option string)
        (port : Z) :
  (forall before d after r,
      proc_entries fs = Some (before ++ d :: after)%list ->
      matches our_pid fs port d = true ->
      record_of fs pwd d = Some r ->
      Forall (fun d' => reports our_pid fs pwd port d' = None) after ->
      result (get_process_info our_pid fs pwd port) = render r) /\
  (forall d_name above buf below process_info,
      Forall (fun b => entry_has_port port b = false) above ->
      entry_has_port port buf = true ->
      scan_tcp_table fs pwd port d_name (above ++ buf :: below)%list process_info =
      (info <- describe_process fs pwd d_name process_info ;; ret (info, below))) /\
  (forall entries,
      proc_entries fs = Some entries ->
      Forall (fun d => matches our_pid fs port d = false) entries ->
      result (get_process_info our_pid fs pwd port) = "").
Proof.
  split; [|split].
  - intros before d after r Hentries Hmatch Hrecord Hafter.
    rewrite get_process_info_result, Hentries.
    apply fold_round_last; [|assumption].
    apply reports_iff. split; assumption.
  - intros. now apply scan_tcp_table_first_match.
  - intros entries Hentries Hnone.
    rewrite get_process_info_result, Hentries.
    apply fold_round_silent. now apply silent_of_no_match.
Qed.

Lemma last_match_wins_witness :
  result (get_process_info 99 Sample.two_owners Sample.passwd 80) =
  render {| executableName := "nginx"; processId := "4321";
            ownerName := "www-data" |}.
Proof.
  refine (proj1 (last_match_wins 99 Sample.two_owners Sample.passwd 80)
            ["."; ".."; "self"; "812"] "4321" ["99"; "uptime"] _
            eq_refl eq_refl eq_refl _).
  repeat constructor.
Defined.

(** C3.  The record the correlator returns is never the scanner's own: it is
    empty, or it is the record of an entry of /proc whose number differs from
    [our_pid], so not the entry the scanner is listed under.  An entry with the
    scanner's number contributes nothing, so when no other process has the
    port the result is empty; and no row of a run names the scanner. *)
Theorem never_attributed_to_self (our_pid : Z) (fs : ProcFS)
        (pwd : Z -> option string) (port : Z) :
  let info := result (get_process_info our_pid fs pwd port) in
  (info = "" \/
   exists entries r,
     proc_entries fs = Some entries /\ In (processId r) entries /\
     info = render r /\
     record_of fs pwd (processId r) = Some r /\
     table_has_port fs port (processId r) = true /\
     atoi (processId r) <> our_pid /\
     (0 <= our_pid < 2 ^ 31 -> processId r <> proc_entry_name our_pid)) /\
  (forall d, atoi d = our_pid -> reports our_pid fs pwd port d = None) /\
  (0 <= our_pid < 2 ^ 31 -> skipped our_pid (proc_entry_name our_pid) = true) /\
  (forall entries,
      proc_entries fs = Some entries ->
      (forall d, In d entries -> atoi d <> our_pid ->
                 table_has_port fs port d = false) ->
      info = "") /\
  (forall W row,
      In row (rows (trace (main W))) ->
      row_process row = "unknown" \/
      exists r, row_process row = render r /\ atoi (processId r) <> getpid W).
Proof.
  assert (Hfirst : forall our_pid fs pwd port,
             let info := result (get_process_info our_pid fs pwd port) in
             info = "" \/
             exists entries r,
               proc_entries fs = Some entries /\ In (processId r) entries /\
               info = render r /\
               record_of fs pwd (processId r) = Some r /\
               table_has_port fs port (processId r) = true /\
               atoi (processId r) <> our_pid /\
               (0 <= our_pid < 2 ^ 31 ->
                processId r <> proc_entry_name our_pid)).
  { clear. intros our_pid fs pwd port info. subst info.
    rewrite get_process_info_result.
    destruct (proc_entries fs) as [entries|]; [|now left].
    destruct (last_reporting our_pid fs pwd port entries)
      as [Hsilent | (before & d & after & r & -> & Hd & Hafter)].
    - left. now apply fold_round_silent.
    - right. exists (before ++ d :: after)%list, r.
      destruct (reports_not_self _ _ _ _ _ _ Hd) as (Hid & Hpid & _ & Htable & Hrec).
      rewrite Hid. repeat split; try assumption.
      + apply in_elt.
      + now apply fold_round_last.
      + intros Hrange Hself. apply Hpid. rewrite Hself.
        now apply atoi_proc_entry_name. }
  intro info. split; [apply Hfirst|split; [|split; [|split]]].
  - intros d Hd. unfold reports, matches, skipped.
    apply Z.eqb_eq in Hd. rewrite Hd, orb_true_r. reflexivity.
  - intro Hrange. unfold skipped.
    rewrite (atoi_proc_entry_name our_pid Hrange), Z.eqb_refl.
    apply orb_true_r.
  - intros entries Hentries Hothers. subst info.
    rewrite get_process_info_result, Hentries.
    apply fold_round_silent, Forall_forall. intros d Hd.
    unfold reports, matches, skipped.
    destruct (atoi d =? our_pid) eqn:Hpid.
    + now rewrite orb_true_r.
    + apply Z.eqb_neq in Hpid. rewrite (Hothers d Hd Hpid).
      now rewrite andb_false_r.
  - intros W row Hrow. rewrite main_rows in Hrow.
    apply in_map_iff in Hrow. destruct Hrow as (p & <- & _).
    unfold row_for. cbn [row_process].
    destruct (Hfirst (getpid W) (procfs W p) (getpwuid W) p)
      as [Hempty | (entries & r & _ & _ & Hinfo & Hrec & _ & Hpid & _)].
    + left. now rewrite Hempty.
    + right. exists r. rewrite Hinfo.
      rewrite (render_first_char _ _ _ _ Hrec). split; [reflexivity|assumption].
Qed.

Lemma never_attributed_to_self_witness :
  result (get_process_info 99 Sample.only_self Sample.passwd 80) = "".
Proof.
  refine (proj1 (proj2 (proj2 (proj2
            (never_attributed_to_self 99 Sample.only_self Sample.passwd 80))))
            ["1"; "99"] eq_refl _).
  intros d [<- | [<- | []]] Hd; [reflexivity|].
  exfalso. apply Hd. reflexivity.
Defined.

(** ** Lengths *)

Lemma length_take (n : nat) (s : string) : (String.length (take n s) <= n)%nat.
Proof.
  revert s. induction n as [|n IH]; intros [|c s]; cbn [take String.length];
    try lia. specialize (IH s). lia.
Qed.

Lemma take_all (n : nat) (s : string) :
  (String.length s <= n)%nat -> take n s = s.
Proof.
  revert s. induction n as [|n IH]; intros [|c s]; cbn [take String.length];
    intro H; try reflexivity; try lia.
  rewrite IH by lia. reflexivity.
Qed.

Lemma length_take_min (n : nat) (s : string) :
  String.length (take n s) = Nat.min n (String.length s).
Proof.
  revert s. induction n as [|n IH]; intros [|c s]; cbn [take String.length];
    try reflexivity. now rewrite IH.
Qed.

Lemma length_append (a b : string) :
  String.length (a ++ b) = (String.length a + String.length b)%nat.
Proof.
  induction a as [|c a IH]; cbn [append String.length]; [reflexivity|].
  now rewrite IH.
Qed.

Lemma length_spaces (n : nat) : String.length (spaces n) = n.
Proof. induction n as [|n IH]; cbn [spaces String.length]; congruence. Qed.

Lemma length_pad_right (width : nat) (s : string) :
  String.length (pad_right width s) = Nat.max width (String.length s).
Proof. unfold pad_right. rewrite length_append, length_spaces. lia. Qed.

Lemma length_c_str (s : string) : (String.length (c_str s) <= String.length s)%nat.
Proof.
  induction s as [|c s IH]; cbn [c_str String.length]; [lia|].
  destruct (code c =? 0); cbn [String.length]; lia.
Qed.

Lemma length_cut_newline (s : string) :
  (String.length (cut_newline s) <= String.length s)%nat.
Proof.
  induction s as [|c s IH]; cbn [cut_newline String.length]; [lia|].
  destruct (c =? newline)%char; cbn [String.length]; lia.
Qed.

(** The first line [fgets] returns fits what is left of the buffer, and the
    lines after it fit the buffer. *)
Lemma fgets_chunks_bound (size : nat) (content : string) :
  forall room,
    match fgets_chunks size room content with
    | [] => True
    | first :: later =>
        (String.length first <= Nat.max 1 room)%nat /\
        Forall (fun buf => (String.length buf <= Nat.max 1 (size - 1))%nat) later
    end.
Proof.
  induction content as [|c rest IH]; intro room; cbn [fgets_chunks]; [exact I|].
  destruct ((c =? newline)%char || (room <=? 1)%nat) eqn:Hend.
  - split; [cbn [String.length]; lia|].
    specialize (IH (size - 1)%nat).
    destruct (fgets_chunks size (size - 1) rest) as [|first later];
      [constructor|].
    destruct IH as [Hfirst Hlater]. constructor; assumption.
  - apply orb_false_iff in Hend. destruct Hend as [_ Hroom].
    apply Nat.leb_gt in Hroom.
    specialize (IH (room - 1)%nat).
    destruct (fgets_chunks size (room - 1) rest) as [|first later].
    + split; [cbn [String.length]; lia|constructor].
    + destruct IH as [Hfirst Hlater]. split; [|assumption].
      cbn [String.length]. lia.
Qed.

Lemma lines_of_bound (fs : ProcFS) (path : string) (lines : FILE) :
  lines_of fs path = Some lines ->
  Forall (fun buf => (String.length buf <= 255)%nat) lines.
Proof.
  unfold lines_of. destruct (file_content fs path) as [content|];
    [|discriminate].
  cbn [option_map]. intro H. inversion H; subst lines; clear H.
  pose proof (fgets_chunks_bound 256 content 255) as Hbound.
  destruct (fgets_chunks 256 255 content) as [|first later]; [constructor|].
  destruct Hbound as [Hfirst Hlater]. constructor; [exact Hfirst|exact Hlater].
Qed.

Lemma record_name_bound (fs : ProcFS) (pwd : Z -> option string)
      (d_name : string) (r : ProcessRecord) :
  record_of fs pwd d_name = Some r ->
  (String.length (executableName r) <= 255)%nat /\ processId r = d_name.
Proof.
  unfold record_of. intro H.
  destruct (lines_of fs (comm_path d_name)) as [[|buf comm]|] eqn:Hcomm;
    try discriminate.
  destruct (lines_of fs (status_path d_name)); try discriminate.
  inversion H; subst r; clear H. cbn [executableName processId].
  split; [|reflexivity].
  apply lines_of_bound in Hcomm. inversion Hcomm; subst.
  pose proof (length_cut_newline (c_str buf)). pose proof (length_c_str buf).
  lia.
Qed.

Lemma take_substring (n : nat) (s : string) : take n s = substring 0 n s.
Proof.
  revert s. induction n as [|n IH]; intros [|c s]; cbn [take substring];
    try reflexivity. now rewrite IH.
Qed.

Lemma spaces_blanks (n : nat) : spaces n = blanks n.
Proof.
  unfold blanks. induction n as [|n IH]; cbn [spaces repeat string_of_list_ascii];
    [reflexivity|]. now rewrite IH.
Qed.

(** The formatter of the embedding gives the text written out above. *)
Lemma format_process_info_text (name pid owner : string) :
  format_process_info name pid owner = record_text name pid owner.
Proof.
  unfold format_process_info, snprintf, record_text, column, pad_right.
  change (512 - 1)%nat with 511%nat.
  now rewrite take_substring, !spaces_blanks.
Qed.

Lemma record_text_uncut (name pid owner : string) :
  (Nat.max 15 (String.length name) + 7 + Nat.max 6 (String.length pid) + 8
   + Nat.max 8 (String.length owner) <= 511)%nat ->
  record_text name pid owner =
  column 15 name ++ "  PID: " ++ column 6 pid ++ "  User: " ++ column 8 owner.
Proof.
  intro Hfit. rewrite <- format_process_info_text.
  unfold format_process_info, snprintf, column. rewrite <- !spaces_blanks.
  fold (pad_right 15 name). fold (pad_right 6 pid). fold (pad_right 8 owner).
  apply take_all.
  rewrite !length_append, !length_pad_right. cbn [String.length]. lia.
Qed.

Lemma record_text_nonempty (name pid owner : string) :
  record_text name pid owner <> "".
Proof.
  unfold record_text, column. destruct name as [|c name]; cbn; discriminate.
Qed.

(** The calls of lines 111-143 when both files open and the display name can
    be read. *)
Lemma describe_process_trace (fs : ProcFS) (pwd : Z -> option string)
      (d_name process_info buf : string) (comm status : FILE) :
  lines_of fs (comm_path d_name) = Some (buf :: comm) ->
  lines_of fs (status_path d_name) = Some status ->
  trace (describe_process fs pwd d_name process_info) =
  [EvOpen (HFile (comm_path d_name)) true;
   EvOpen (HFile (status_path d_name)) true;
   EvGetpwuid (read_uid status 0);
   EvRelease (HFile (comm_path d_name));
   EvRelease (HFile (status_path d_name))] /\
  result (describe_process fs pwd d_name process_info) =
  record_text (cut_newline (c_str buf)) d_name
    match pwd (read_uid status 0) with
    | Some pw_name => pw_name
    | None => "unknown"
    end.
Proof.
  unfold lines_of, describe_process, fopen.
  destruct (file_content fs (comm_path d_name)) as [c|]; [|discriminate].
  destruct (file_content fs (status_path d_name)) as [st|]; [|discriminate].
  cbn [option_map]. intros Hcomm Hstatus.
  inversion Hcomm as [Hc]. inversion Hstatus as [Hs]. io_simpl.
  rewrite Hc. unfold call_getpwuid, fclose. io_simpl.
  split; [reflexivity|apply format_process_info_text].
Qed.

Lemma reports_of_files (our_pid : Z) (fs : ProcFS) (pwd : Z -> option string)
      (port : Z) (d buf : string) (comm status : FILE) :
  matches our_pid fs port d = true ->
  lines_of fs (comm_path d) = Some (buf :: comm) ->
  lines_of fs (status_path d) = Some status ->
  reports our_pid fs pwd port d =
  Some {| executableName := cut_newline (c_str buf); processId := d;
          ownerName := owner_of pwd (read_uid status 0) |}.
Proof.
  intros Hmatch Hcomm Hstatus. unfold reports, record_of.
  now rewrite Hmatch, Hcomm, Hstatus.
Qed.

Lemma main_rows_In (W : World) (port : Z) :
  In port port_range -> first_dial_ok W port = true ->
  In (row_for W port) (rows (trace (main W))).
Proof.
  intros Hrange Hopen. rewrite main_rows. apply in_map, filter_In. now split.
Qed.

(** C8.  A process that has the port, and whose owner the user database does
    not know, still gets its record: the text returned has its name, its
    identifier and the owner "unknown".  A port whose first dial succeeds and
    that the service database does not know still gets its row, with the
    service "unknown". *)
Theorem unknown_sentinels :
  (forall our_pid fs pwd port d buf comm status,
      matches our_pid fs port d = true ->
      lines_of fs (comm_path d) = Some (buf :: comm) ->
      lines_of fs (status_path d) = Some status ->
      pwd (read_uid status 0) = None ->
      let name := cut_newline (c_str buf) in
      (forall process_info,
          result (describe_process fs pwd d process_info) =
          record_text name d "unknown") /\
      (forall before after,
          proc_entries fs = Some (before ++ d :: after)%list ->
          Forall (fun d' => reports our_pid fs pwd port d' = None) after ->
          result (get_process_info our_pid fs pwd port) =
          record_text name d "unknown") /\
      record_text name d "unknown" <> "" /\
      ((String.length d <= 233)%nat ->
       record_text name d "unknown" =
       column 15 name ++ "  PID: " ++ column 6 d ++ "  User: unknown ")) /\
  (forall W port,
      In port port_range ->
      first_dial_ok W port = true ->
      getservbyport W port = None ->
      row_service (row_for W port) = "unknown" /\
      rows (trace (scan_port W port)) = [row_for W port] /\
      In (row_for W port) (rows (trace (main W)))).
Proof.
  split.
  - intros our_pid fs pwd port d buf comm status Hmatch Hcomm Hstatus Hpw name.
    pose proof (reports_of_files our_pid fs pwd port d buf comm status
                  Hmatch Hcomm Hstatus) as Hreports.
    unfold owner_of in Hreports. rewrite Hpw in Hreports.
    split; [|split; [|split]].
    + intro process_info.
      destruct (describe_process_trace fs pwd d process_info buf comm status
                  Hcomm Hstatus) as [_ ->].
      now rewrite Hpw.
    + intros before after Hentries Hafter.
      rewrite get_process_info_result, Hentries.
      rewrite (fold_round_last _ _ _ _ _ _ _ _ _ Hreports Hafter).
      apply format_process_info_text.
    + apply record_text_nonempty.
    + intro Hd. rewrite record_text_uncut; [reflexivity|].
      assert (Hname : (String.length name <= 255)%nat).
      { apply lines_of_bound in Hcomm. inversion Hcomm; subst.
        pose proof (length_cut_newline (c_str buf)).
        pose proof (length_c_str buf). subst name. lia. }
      cbn [String.length]. lia.
  - intros W port Hrange Hopen Hserv. split; [|split].
    + unfold row_for. cbn [row_service]. now rewrite Hserv.
    + now rewrite scan_port_rows, Hopen.
    + now apply main_rows_In.
Qed.

Lemma unknown_sentinels_witness :
  result (get_process_info 99 Sample.status_uid_1000 Sample.passwd 80) =
    "httpd            PID: 42      User: unknown " /\
  row_service (row_for (Sample.host Sample.two_owners) 8080) = "unknown".
Proof.
  split.
  - exact (proj1 (proj2 (proj1 unknown_sentinels 99 Sample.status_uid_1000
                           Sample.passwd 80 "42" _ _ _
                           eq_refl eq_refl eq_refl eq_refl))
                 [] [] eq_refl (Forall_nil _)).
  - refine (proj1 (proj2 unknown_sentinels (Sample.host Sample.two_owners) 8080
                     _ eq_refl eq_refl)).
    apply port_range_In. lia.
Defined.

Lemma read_uid_unreadable (status : FILE) :
  uid_unreadable status -> forall uid, read_uid status uid = uid.
Proof.
  unfold uid_unreadable.
  induction status as [|buf rest IH]; intros H uid; cbn [read_uid find] in *;
    [reflexivity|].
  destruct (starts_with_Uid (c_str buf)).
  - now rewrite H.
  - now apply IH.
Qed.

(** C9.  When the status record of a process that has the port holds no line
    "Uid:", or the first such line holds no number, the user database is asked
    for uid 0 and for no other: the text returned carries the name the
    database gives for 0, and "unknown" only when the database has no entry
    for 0. *)
Theorem missing_uid_defaults_to_root (our_pid : Z) (fs : ProcFS)
        (pwd : Z -> option string) (port : Z) (d buf : string)
        (comm status : FILE) :
  matches our_pid fs port d = true ->
  lines_of fs (comm_path d) = Some (buf :: comm) ->
  lines_of fs (status_path d) = Some status ->
  uid_unreadable status ->
  let name := cut_newline (c_str buf) in
  read_uid status 0 = 0 /\
  (forall process_info,
      trace (describe_process fs pwd d process_info) =
      [EvOpen (HFile (comm_path d)) true; EvOpen (HFile (status_path d)) true;
       EvGetpwuid 0;
       EvRelease (HFile (comm_path d)); EvRelease (HFile (status_path d))]) /\
  (forall pw_name,
      pwd 0 = Some pw_name ->
      (forall process_info,
          result (describe_process fs pwd d process_info) =
          record_text name d pw_name) /\
      (forall before after,
          proc_entries fs = Some (before ++ d :: after)%list ->
          Forall (fun d' => reports our_pid fs pwd port d' = None) after ->
          result (get_process_info our_pid fs pwd port) =
          record_text name d pw_name)) /\
  (pwd 0 = None ->
   (forall process_info,
       result (describe_process fs pwd d process_info) =
       record_text name d "unknown") /\
   (forall before after,
       proc_entries fs = Some (before ++ d :: after)%list ->
       Forall (fun d' => reports our_pid fs pwd port d' = None) after ->
       result (get_process_info our_pid fs pwd port) =
       record_text name d "unknown")).
Proof.
  intros Hmatch Hcomm Hstatus Huid name.
  pose proof (read_uid_unreadable status Huid 0) as Hzero.
  pose proof (reports_of_files our_pid fs pwd port d buf comm status
                Hmatch Hcomm Hstatus) as Hreports.
  rewrite Hzero in Hreports. unfold owner_of in Hreports.
  assert (Hdescribe : forall process_info,
             trace (describe_process fs pwd d process_info) =
             [EvOpen (HFile (comm_path d)) true;
              EvOpen (HFile (status_path d)) true; EvGetpwuid 0;
              EvRelease (HFile (comm_path d));
              EvRelease (HFile (status_path d))] /\
             result (describe_process fs pwd d process_info) =
             record_text name d match pwd 0 with
                                | Some pw_name => pw_name
                                | None => "unknown"
                                end).
  { intro process_info.
    pose proof (describe_process_trace fs pwd d process_info buf comm status
                  Hcomm Hstatus) as H.
    now rewrite Hzero in H. }
  split; [assumption|split; [intro; apply Hdescribe|split]].
  - intros pw_name Hpw. rewrite Hpw in *. split.
    + intro process_info. apply Hdescribe.
    + intros before after Hentries Hafter.
      rewrite get_process_info_result, Hentries.
      rewrite (fold_round_last _ _ _ _ _ _ _ _ _ Hreports Hafter).
      apply format_process_info_text.
  - intro Hpw. rewrite Hpw in *. split.
    + intro process_info. apply Hdescribe.
    + intros before after Hentries Hafter.
      rewrite get_process_info_result, Hentries.
      rewrite (fold_round_last _ _ _ _ _ _ _ _ _ Hreports Hafter).
      apply format_process_info_text.
Qed.

Lemma missing_uid_defaults_to_root_witness :
  result (get_process_info 99 Sample.status_without_uid Sample.passwd 80) =
    "httpd            PID: 42      User: root    " /\
  trace (describe_process Sample.status_without_uid Sample.passwd "42" "") =
    [EvOpen (HFile "/proc/42/comm") true; EvOpen (HFile "/proc/42/status") true;
     EvGetpwuid 0;
     EvRelease (HFile "/proc/42/comm"); EvRelease (HFile "/proc/42/status")].
Proof.
  pose proof (missing_uid_defaults_to_root 99 Sample.status_without_uid
                Sample.passwd 80 "42" _ _ _ eq_refl eq_refl eq_refl I)
    as (_ & Htrace & Hroot & _).
  split.
  - exact (proj2 (Hroot "root" eq_refl) [] [] eq_refl (Forall_nil _)).
  - exact (Htrace "").
Defined.

(** C10.  The correlator always returns a string: the empty one when /proc
    cannot be opened, and when no process other than the scanner has the
    port; and [main] prints "unknown" in the PROCESS column of the row when
    the string is empty. *)
Theorem correlation_never_fails :
  (forall our_pid fs pwd port,
      exists info calls, get_process_info our_pid fs pwd port = (info, calls)) /\
  (forall our_pid fs pwd port,
      proc_entries fs = None ->
      get_process_info our_pid fs pwd port = ("", [EvOpen HDir false])) /\
  (forall our_pid fs pwd port entries,
      proc_entries fs = Some entries ->
      (forall d, In d entries -> isdigit (first_char d) = true ->
                 atoi d <> our_pid -> table_has_port fs port d = false) ->
      result (get_process_info our_pid fs pwd port) = "") /\
  (forall W port,
      first_dial_ok W port = true ->
      result (get_process_info (getpid W) (procfs W port) (getpwuid W) port) = "" ->
      rows (trace (scan_port W port)) = [row_for W port] /\
      row_process (row_for W port) = "unknown").
Proof.
  split; [|split; [|split]].
  - intros. destruct (get_process_info our_pid fs pwd port) as [info calls].
    now exists info, calls.
  - intros our_pid fs pwd port Hdir. unfold get_process_info. now rewrite Hdir.
  - intros our_pid fs pwd port entries Hentries Hnone.
    rewrite get_process_info_result, Hentries.
    apply fold_round_silent, Forall_forall. intros d Hd.
    unfold reports, matches, skipped.
    destruct (isdigit (first_char d)) eqn:Hdigit; [|reflexivity].
    destruct (atoi d =? our_pid) eqn:Hpid; [reflexivity|].
    apply Z.eqb_neq in Hpid. now rewrite (Hnone d Hd Hdigit Hpid).
  - intros W port Hopen Hempty. split.
    + now rewrite scan_port_rows, Hopen.
    + unfold row_for. cbn [row_process]. now rewrite Hempty.
Qed.

Lemma correlation_never_fails_witness :
  row_process (row_for (Sample.host Sample.only_self) 80) = "unknown".
Proof.
  refine (proj2 (proj2 (proj2 (proj2 correlation_never_fails))
                   (Sample.host Sample.only_self) 80 eq_refl _)).
  refine (proj1 (proj2 (proj2 correlation_never_fails))
            99 Sample.only_self Sample.passwd 80 ["1"; "99"] eq_refl _).
  intros d [<- | [<- | []]] _ Hd; [reflexivity|].
  exfalso. apply Hd. reflexivity.
Defined.

(** ** Descriptors and streams *)

Lemma handle_eqb_refl (h : Handle) : handle_eqb h h = true.
Proof.
  destruct h as [port dial| |path]; simpl.
  - now rewrite Z.eqb_refl, Nat.eqb_refl.
  - reflexivity.
  - apply String.eqb_refl.
Qed.

Lemma release_head (h : Handle) (held : list Handle) : release h (h :: held) = held.
Proof. simpl. now rewrite handle_eqb_refl. Qed.

Lemma held_after_app (held : list Handle) (t1 t2 : list Event) :
  held_after held (t1 ++ t2) = held_after (held_after held t1) t2.
Proof. apply fold_left_app. Qed.

(** Opened in one order and released in the same order: nothing is left. *)
Lemma release_pair (a b : string) (held : list Handle) :
  release (HFile b) (release (HFile a) (HFile b :: HFile a :: held)) = held.
Proof.
  cbn [release handle_eqb].
  destruct (a =? b)%string eqn:Hab.
  - apply String.eqb_eq in Hab. subst b. apply release_head.
  - rewrite String.eqb_refl. cbn [release handle_eqb].
    now rewrite String.eqb_refl.
Qed.

(** The socket of the second dial is released on every path. *)
Lemma check_port_state_releases (W : World) (port : Z) (held : list Handle) :
  held_after held (trace (check_port_state W port)) = held.
Proof.
  rewrite check_port_state_trace.
  destruct (socket_ok W port 1); cbn [held_after fold_left step_held];
    [apply release_head|reflexivity].
Qed.

(** Lines 111-144 release both streams when both were opened, and none when
    one of them was not: the one that was opened stays open. *)
Lemma describe_process_held (fs : ProcFS) (pwd : Z -> option string)
      (d_name process_info : string) (held : list Handle) :
  held_after held (trace (describe_process fs pwd d_name process_info)) =
  match file_content fs (comm_path d_name), file_content fs (status_path d_name) with
  | Some _, None => HFile (comm_path d_name) :: held
  | None, Some _ => HFile (status_path d_name) :: held
  | _, _ => held
  end.
Proof.
  unfold describe_process, fopen.
  destruct (file_content fs (comm_path d_name)) as [comm|];
    destruct (file_content fs (status_path d_name)) as [status|];
    io_simpl; try reflexivity.
  destruct (fgets_chunks 256 255 comm) as [|buf comm']; io_simpl;
    cbn [app held_after fold_left step_held]; apply release_pair.
Qed.

Lemma describe_process_paired (fs : ProcFS) (pwd : Z -> option string)
      (d_name process_info : string) (held : list Handle) :
  streams_paired fs d_name ->
  held_after held (trace (describe_process fs pwd d_name process_info)) = held.
Proof.
  unfold streams_paired. intros [Hcs Hsc]. rewrite describe_process_held.
  destruct (file_content fs (comm_path d_name)) as [comm|];
    destruct (file_content fs (status_path d_name)) as [status|];
    try reflexivity.
  - discriminate (Hsc eq_refl).
  - discriminate (Hcs eq_refl).
Qed.

Lemma scan_tcp_table_paired (fs : ProcFS) (pwd : Z -> option string) (port : Z)
      (d_name : string) (table : FILE) (process_info : string)
      (held : list Handle) :
  streams_paired fs d_name ->
  held_after held (trace (scan_tcp_table fs pwd port d_name table process_info)) =
  held.
Proof.
  intro Hpaired. induction table as [|buf rest IH]; cbn [scan_tcp_table];
    [reflexivity|].
  destruct (sscanf_tcp (c_str buf)) as [local_port|]; [|exact IH].
  destruct (local_port =? port); [|exact IH].
  io_simpl. rewrite app_nil_r. now apply describe_process_paired.
Qed.

(** Apart from that case the correlator releases what it opens. *)
Lemma get_process_info_paired (our_pid : Z) (fs : ProcFS)
      (pwd : Z -> option string) (port : Z) (held : list Handle) :
  (forall d_name, streams_paired fs d_name) ->
  held_after held (trace (get_process_info our_pid fs pwd port)) = held.
Proof.
  intro Hpaired. unfold get_process_info.
  destruct (proc_entries fs) as [entries|]; [|reflexivity].
  assert (Hloop : forall process_info held',
             held_after held'
               (trace (readdir_loop our_pid fs pwd port entries process_info)) =
             held').
  { induction entries as [|d_name later IH]; intros process_info held';
      cbn [readdir_loop]; [reflexivity|].
    destruct (skipped our_pid d_name); [apply IH|].
    unfold fopen.
    destruct (file_content fs (net_tcp_path d_name)) as [content|];
      io_simpl; rewrite !held_after_app, IH.
    - rewrite scan_tcp_table_paired by apply Hpaired.
      cbn [held_after fold_left step_held]. apply release_head.
    - reflexivity. }
  io_simpl. rewrite !held_after_app, Hloop.
  cbn [app held_after fold_left step_held]. apply release_head.
Qed.

(** A round of the sweep then holds nothing more at its end than at its start:
    both sockets are released on every path. *)
Lemma scan_port_paired (W : World) (port : Z) (held : list Handle) :
  (forall d_name, streams_paired (procfs W port) d_name) ->
  held_after held (trace (scan_port W port)) = held.
Proof.
  intro Hpaired. rewrite scan_port_trace.
  destruct (socket_ok W port 0); [|reflexivity].
  destruct (connect_ok W port 0).
  - rewrite !held_after_app, check_port_state_releases.
    unfold correlation. rewrite get_process_info_paired by assumption.
    cbn [held_after fold_left step_held]. apply release_head.
  - cbn [held_after fold_left step_held]. apply release_head.
Qed.

(** C4.  Not every stream is released: when the display name of a process can
    be opened and its status record cannot, the stream of the display name is
    still open when the correlator returns. *)
Theorem status_open_failure_leaks_comm :
  leaked (trace (get_process_info 99 Sample.status_gone Sample.passwd 80)) =
  [HFile "/proc/42/comm"].
Proof. vm_compute. reflexivity. Qed.

(** ** Reading the lines of the kernel *)

Lemma hex_char_value (d : Z) : 0 <= d < 16 -> hex_value (hex_char d) = Some d.
Proof.
  intro Hd.
  assert (H : d = 0 \/ d = 1 \/ d = 2 \/ d = 3 \/ d = 4 \/ d = 5 \/ d = 6 \/ d = 7 \/
              d = 8 \/ d = 9 \/ d = 10 \/ d = 11 \/ d = 12 \/ d = 13 \/ d = 14 \/
              d = 15) by lia.
  repeat (destruct H as [-> | H]; [reflexivity|]). now subst d.
Qed.

(** What a hexadecimal digit is not. *)
Lemma hex_digit_class (c : ascii) (v : Z) :
  hex_value c = Some v ->
  isspace c = false /\ (c =? ":")%char = false /\ (code c =? 0) = false /\
  (forall s, scan_sign (String c s) = (false, String c s)) /\
  (forall s, scan_0x (String "0" (String c s)) = (0%nat, String "0" (String c s))).
Proof.
  destruct c as [[] [] [] [] [] [] [] []]; intro H; try discriminate H;
    repeat split; reflexivity.
Qed.

Lemma scan_0x_other (c : ascii) (s : string) :
  (c =? "0")%char = false -> scan_0x (String c s) = (0%nat, String c s).
Proof.
  destruct c as [[] [] [] [] [] [] [] []]; intro H; try discriminate H;
    reflexivity.
Qed.

Lemma digit_class (c : ascii) :
  isdigit c = true ->
  isspace c = false /\ (code c =? 0) = false /\ (c =? ":")%char = false.
Proof.
  destruct c as [[] [] [] [] [] [] [] []]; intro H; try discriminate H;
    repeat split; reflexivity.
Qed.

Lemma skip_space_spaces (pad : nat) (s : string) :
  skip_space (spaces pad ++ s) = skip_space s.
Proof. induction pad as [|pad IH]; [reflexivity|exact IH]. Qed.

Lemma skip_space_all_space (gap s : string) :
  all_space gap = true -> skip_space (gap ++ s) = skip_space s.
Proof.
  induction gap as [|c gap IH]; cbn [append all_space skip_space];
    [reflexivity|].
  intro H. apply andb_true_iff in H. destruct H as [-> H]. now apply IH.
Qed.

Lemma scan_digits_app (x rest : string) :
  all_digits x = true ->
  isdigit (first_char rest) = false ->
  forall acc n,
    scan_digits acc n (x ++ rest) =
    ((n + String.length x)%nat, digits_value acc x, rest).
Proof.
  intros Hx Hrest.
  induction x as [|c x IH]; cbn [append all_digits scan_digits digits_value
                                  String.length] in *; intros acc n.
  - rewrite Nat.add_0_r. destruct rest as [|c rest]; [reflexivity|].
    cbn [scan_digits first_char] in *. now rewrite Hrest.
  - apply andb_true_iff in Hx. destruct Hx as [Hc Hx].
    rewrite Hc, (IH Hx). now rewrite Nat.add_succ_r.
Qed.

Lemma scan_not_colon_hex (addr rest : string) :
  all_hex addr = true ->
  scan_not_colon (addr ++ String ":" rest) = (addr, String ":" rest).
Proof.
  induction addr as [|c addr IH]; cbn [append all_hex scan_not_colon];
    [reflexivity|].
  destruct (hex_value c) as [v|] eqn:Hc; [|discriminate]. intro Haddr.
  destruct (hex_digit_class c v Hc) as (_ & -> & _). now rewrite (IH Haddr).
Qed.

Lemma hex4_value (p : Z) :
  0 <= p < 65536 ->
  16 * (16 * (16 * (16 * 0 + p / 4096 mod 16) + p / 256 mod 16) + p / 16 mod 16)
  + p mod 16 = p.
Proof. intro Hp. Z.div_mod_to_equations. lia. Qed.

Lemma scan_X_hex4 (p : Z) (rest : string) :
  0 <= p < 65536 ->
  hex_value (first_char rest) = None ->
  scan_X (hex4 p ++ rest) = Some (p, rest).
Proof.
  intros Hp Hrest. unfold scan_X, hex4. cbn [append].
  pose proof (hex_char_value (p / 4096 mod 16)) as H3.
  pose proof (hex_char_value (p / 256 mod 16)) as H2.
  pose proof (hex_char_value (p / 16 mod 16)) as H1.
  pose proof (hex_char_value (p mod 16)) as H0.
  specialize (H3 (Z.mod_pos_bound _ 16 eq_refl)).
  specialize (H2 (Z.mod_pos_bound _ 16 eq_refl)).
  specialize (H1 (Z.mod_pos_bound _ 16 eq_refl)).
  specialize (H0 (Z.mod_pos_bound _ 16 eq_refl)).
  destruct (hex_digit_class _ _ H3) as (Hsp & _ & _ & Hsign & _).
  destruct (hex_digit_class _ _ H2) as (_ & _ & _ & _ & H0x).
  cbn [skip_space]. rewrite Hsp, Hsign.
  assert (Hprefix : forall s,
             scan_0x (String (hex_char (p / 4096 mod 16))
                        (String (hex_char (p / 256 mod 16)) s)) =
             (0%nat, String (hex_char (p / 4096 mod 16))
                       (String (hex_char (p / 256 mod 16)) s))).
  { intro s. destruct (hex_char (p / 4096 mod 16) =? "0")%char eqn:Hzero.
    - apply Ascii.eqb_eq in Hzero. rewrite Hzero. apply H0x.
    - now apply scan_0x_other. }
  rewrite Hprefix. cbn [scan_hex_digits]. rewrite H3, H2, H1, H0.
  assert (Hend : forall acc n, scan_hex_digits acc n rest = (n, acc, rest)).
  { intros acc n. destruct rest as [|c rest]; [reflexivity|].
    cbn [scan_hex_digits first_char] in *. now rewrite Hrest. }
  rewrite Hend, (hex4_value p Hp).
  unfold ULONG_MAX, wrap_int.
  replace (2 ^ 64 - 1 <? p) with false by (symmetry; apply Z.ltb_ge; lia).
  rewrite Z.mod_small by lia. do 2 f_equal. lia.
Qed.

(** The pattern of line 101 on an entry of the kernel. *)
Lemma sscanf_tcp_entry_shape (pad : nat) (slot addr : string) (p : Z)
      (rest : string) :
  all_digits slot = true -> slot <> "" ->
  all_hex addr = true -> addr <> "" ->
  0 <= p < 65536 ->
  hex_value (first_char rest) = None ->
  sscanf_tcp (tcp_entry pad slot addr p rest) = Some p.
Proof.
  intros Hslot Hslot' Haddr Haddr' Hp Hrest. unfold sscanf_tcp, tcp_entry, scan_d.
  rewrite skip_space_spaces.
  assert (Hfirst : isdigit (first_char (slot ++ ": " ++ addr ++ ":" ++ hex4 p ++ rest)) = true).
  { destruct slot as [|c slot]; [contradiction|].
    cbn [append first_char all_digits] in *. now apply andb_true_iff in Hslot. }
  destruct (isdigit_first _ Hfirst) as [-> ->].
  rewrite scan_digits_app by (assumption || reflexivity).
  destruct slot as [|c slot]; [contradiction|].
  cbn [String.length Nat.add]. cbn [append].
  destruct addr as [|a addr]; [contradiction|].
  cbn [all_hex] in Haddr.
  destruct (hex_value a) as [v|] eqn:Ha; [|discriminate].
  destruct (hex_digit_class a v Ha) as (Hsp & Hcolon & _).
  cbn [append skip_space isspace]. 
  change (isspace " ") with true. cbn [skip_space]. rewrite Hsp.
  cbn [scan_not_colon]. rewrite Hcolon.
  change (":" ++ hex4 p ++ rest) with (String ":" (hex4 p ++ rest)).
  rewrite (scan_not_colon_hex addr _ Haddr).
  now rewrite scan_X_hex4.
Qed.

Lemma c_str_spaces (pad : nat) (s : string) :
  c_str (spaces pad ++ s) = spaces pad ++ c_str s.
Proof.
  induction pad as [|pad IH]; [reflexivity|].
  cbn [spaces append c_str]. change (code " " =? 0) with false. now rewrite IH.
Qed.

Lemma c_str_digits (x s : string) :
  all_digits x = true -> c_str (x ++ s) = x ++ c_str s.
Proof.
  induction x as [|c x IH]; cbn [append all_digits c_str]; [reflexivity|].
  intro H. apply andb_true_iff in H. destruct H as [Hc Hx].
  destruct (digit_class c Hc) as (_ & -> & _). now rewrite (IH Hx).
Qed.

Lemma c_str_hex (x s : string) :
  all_hex x = true -> c_str (x ++ s) = x ++ c_str s.
Proof.
  induction x as [|c x IH]; cbn [append all_hex c_str]; [reflexivity|].
  destruct (hex_value c) as [v|] eqn:Hc; [|discriminate]. intro Hx.
  destruct (hex_digit_class c v Hc) as (_ & _ & -> & _). now rewrite (IH Hx).
Qed.

Lemma space_class (c : ascii) : isspace c = true -> (code c =? 0) = false.
Proof.
  destruct c as [[] [] [] [] [] [] [] []]; intro H; try discriminate H;
    reflexivity.
Qed.

Lemma c_str_all_space (x s : string) :
  all_space x = true -> c_str (x ++ s) = x ++ c_str s.
Proof.
  induction x as [|c x IH]; cbn [append all_space c_str]; [reflexivity|].
  intro H. apply andb_true_iff in H. destruct H as [Hc Hx].
  now rewrite (space_class c Hc), (IH Hx).
Qed.

Lemma all_hex_hex4 (p : Z) : all_hex (hex4 p) = true.
Proof.
  unfold hex4. cbn [all_hex].
  now rewrite !hex_char_value by (apply Z.mod_pos_bound; reflexivity).
Qed.

Lemma first_char_c_str (s : string) :
  first_char (c_str s) = first_char s \/ first_char (c_str s) = zero.
Proof.
  destruct s as [|c s]; [now left|]. cbn [c_str].
  destruct (code c =? 0); [now right|now left].
Qed.

Lemma c_str_tcp_entry (pad : nat) (slot addr : string) (p : Z) (others : string) :
  all_digits slot = true -> all_hex addr = true ->
  c_str (tcp_entry pad slot addr p others) =
  tcp_entry pad slot addr p (c_str others).
Proof.
  intros Hslot Haddr. unfold tcp_entry.
  rewrite c_str_spaces, c_str_digits by assumption.
  cbn [append c_str]. change (code ":" =? 0) with false.
  change (code " " =? 0) with false. cbv iota.
  rewrite c_str_hex by assumption.
  cbn [append c_str]. change (code ":" =? 0) with false. cbv iota.
  now rewrite c_str_hex by apply all_hex_hex4.
Qed.

(** X1.  The pattern of line 101 recognises an entry written the way the
    kernel writes it, and reads its local port in hexadecimal: such an entry
    counts for a port exactly when its port field is that port, and a socket
    table that holds one below its header lists the port. *)
Theorem kernel_entry_recognised (pad : nat) (slot addr : string) (p : Z)
        (others : string) :
  all_digits slot = true -> slot <> "" ->
  all_hex addr = true -> addr <> "" ->
  0 <= p < 65536 ->
  hex_value (first_char others) = None ->
  sscanf_tcp (c_str (tcp_entry pad slot addr p others)) = Some p /\
  (forall port,
      entry_has_port port (tcp_entry pad slot addr p others) = (p =? port)) /\
  (forall table,
      In (tcp_entry pad slot addr p others) table ->
      existsb (entry_has_port p) table = true).
Proof.
  intros Hslot Hslot' Haddr Haddr' Hp Hothers.
  assert (Hscan : sscanf_tcp (c_str (tcp_entry pad slot addr p others)) = Some p).
  { rewrite c_str_tcp_entry by assumption.
    apply sscanf_tcp_entry_shape; try assumption.
    destruct (first_char_c_str others) as [-> | ->]; [assumption|reflexivity]. }
  split; [exact Hscan|split].
  - intro port. unfold entry_has_port. now rewrite Hscan.
  - intros table Hin. apply existsb_exists.
    exists (tcp_entry pad slot addr p others). split; [assumption|].
    unfold entry_has_port. rewrite Hscan. apply Z.eqb_refl.
Qed.

Lemma kernel_entry_recognised_witness :
  sscanf_tcp (c_str "   0: 0100007F:0050 00000000:0000 0A") = Some 80.
Proof.
  refine (proj1 (kernel_entry_recognised 3 "0" "0100007F" 80
                   " 00000000:0000 0A" eq_refl _ eq_refl _ _ eq_refl));
    [discriminate | discriminate | lia].
Defined.

Lemma decimal_digits_nonempty (fuel : nat) (n : Z) (rest : string) :
  0 <= n ->
  isdigit (first_char (decimal_digits (S fuel) n ++ rest)) = true /\
  String.length (decimal_digits (S fuel) n) <> 0%nat.
Proof.
  intro Hn. pose proof (decimal_digits_first fuel n Hn) as Hfirst.
  destruct (decimal_digits (S fuel) n) as [|c s]; [discriminate Hfirst|].
  split; [exact Hfirst|discriminate].
Qed.

(** The pattern of line 130 on the line "Uid:" of the kernel. *)
Lemma sscanf_uid_line_shape (gap : string) (uid : Z) (rest : string) :
  all_space gap = true ->
  0 <= uid < 2 ^ 32 ->
  isdigit (first_char rest) = false ->
  sscanf_uid (uid_line gap uid rest) = Some uid /\
  starts_with_Uid (uid_line gap uid rest) = true.
Proof.
  intros Hgap Huid Hrest. unfold uid_line. cbn [append sscanf_uid starts_with_Uid].
  split; [|reflexivity].
  rewrite skip_space_all_space by assumption.
  destruct (decimal_digits_nonempty 9 uid rest) as [Hfirst Hlen]; [lia|].
  destruct (isdigit_first _ Hfirst) as [Hskip Hsign].
  rewrite Hskip. unfold scan_d. rewrite Hskip, Hsign.
  rewrite scan_digits_app by (assumption || apply decimal_digits_all; lia).
  rewrite decimal_digits_value by (simpl; lia).
  destruct (String.length (decimal_digits 10 uid)) as [|len]; [contradiction|].
  cbn [Nat.add]. unfold LONG_MAX, wrap_int, wrap_uint.
  rewrite Z.min_r by lia. f_equal.
  Z.div_mod_to_equations. lia.
Qed.

Lemma c_str_uid_line (gap : string) (uid : Z) (others : string) :
  all_space gap = true -> 0 <= uid ->
  c_str (uid_line gap uid others) = uid_line gap uid (c_str others).
Proof.
  intros Hgap Huid. unfold uid_line. cbn [append c_str].
  change (code "U" =? 0) with false. change (code "i" =? 0) with false.
  change (code "d" =? 0) with false. change (code ":" =? 0) with false.
  cbv iota. rewrite c_str_all_space by assumption.
  now rewrite c_str_digits by (apply decimal_digits_all; assumption).
Qed.



(** ** Buffers *)

Lemma scan_not_colon_field (field rest : string) :
  has_char ":" field = false ->
  scan_not_colon (field ++ String ":" rest) = (field, String ":" rest).
Proof.
  induction field as [|c field IH]; cbn [append has_char scan_not_colon];
    [reflexivity|].
  intro H. apply orb_false_iff in H. destruct H as [Hc Hfield].
  now rewrite Hc, (IH Hfield).
Qed.

(** The address field is stored as it stands, whatever its length. *)
Lemma sscanf_tcp_addr_field (pad : nat) (slot field rest : string) :
  all_digits slot = true -> slot <> "" ->
  has_char ":" field = false ->
  isspace (first_char field) = false -> field <> "" ->
  sscanf_tcp_addr (spaces pad ++ slot ++ ": " ++ field ++ ":" ++ rest) =
  Some field.
Proof.
  intros Hslot Hslot' Hcolon Hspace Hfield. unfold sscanf_tcp_addr, scan_d.
  rewrite skip_space_spaces.
  assert (Hfirst : isdigit (first_char (slot ++ ": " ++ field ++ ":" ++ rest)) = true).
  { destruct slot as [|c slot]; [contradiction|].
    cbn [append first_char all_digits] in *. now apply andb_true_iff in Hslot. }
  destruct (isdigit_first _ Hfirst) as [-> ->].
  rewrite scan_digits_app by (assumption || reflexivity).
  destruct slot as [|c slot]; [contradiction|].
  cbn [String.length Nat.add]. cbn [append].
  destruct field as [|a field]; [contradiction|].
  cbn [first_char] in Hspace.
  cbn [append skip_space].
  change (isspace " ") with true. cbn [skip_space]. rewrite Hspace.
  change (String a (field ++ String ":" rest))
    with (String a field ++ String ":" rest).
  now rewrite (scan_not_colon_field (String a field) rest Hcolon).
Qed.

Lemma all_hex_field (addr : string) :
  all_hex addr = true ->
  has_char ":" addr = false /\ isspace (first_char addr) = false.
Proof.
  induction addr as [|c addr IH]; cbn [all_hex has_char first_char];
    [split; reflexivity|].
  destruct (hex_value c) as [v|] eqn:Hc; [|discriminate]. intro Haddr.
  destruct (hex_digit_class c v Hc) as (Hsp & Hcolon & _).
  rewrite Hcolon. split; [apply IH; assumption|assumption].
Qed.


Lemma has_char_nul (c : ascii) :
  (code c =? 0) = false -> (c =? zero)%char = false.
Proof.
  destruct c as [[] [] [] [] [] [] [] []]; intro H; try discriminate H;
    reflexivity.
Qed.

Lemma c_str_no_nul (s : string) : has_char zero (c_str s) = false.
Proof.
  induction s as [|c s IH]; cbn [c_str has_char]; [reflexivity|].
  destruct (code c =? 0) eqn:Hc; cbn [has_char]; [reflexivity|].
  now rewrite (has_char_nul c Hc), IH.
Qed.

Lemma cut_newline_keeps (c : ascii) (s : string) :
  has_char c s = false -> has_char c (cut_newline s) = false.
Proof.
  induction s as [|c' s IH]; cbn [cut_newline has_char]; [reflexivity|].
  intro H. apply orb_false_iff in H. destruct H as [Hc Hs].
  destruct (c' =? newline)%char; cbn [has_char]; [reflexivity|].
  now rewrite Hc, IH.
Qed.

Lemma cut_newline_no_newline (s : string) :
  has_char newline (cut_newline s) = false.
Proof.
  induction s as [|c s IH]; cbn [cut_newline has_char]; [reflexivity|].
  destruct (c =? newline)%char eqn:Hc; cbn [has_char]; [reflexivity|].
  now rewrite Hc, IH.
Qed.

Lemma nul_char (c : ascii) : (code c =? 0) = true -> c = zero.
Proof.
  destruct c as [[] [] [] [] [] [] [] []]; intro H; try discriminate H;
    reflexivity.
Qed.

(** The display name is the buffer up to its first newline or NUL. *)
Lemma display_name_split (buf : string) :
  exists after,
    buf = cut_newline (c_str buf) ++ after /\
    (after = "" \/ first_char after = newline \/ first_char after = zero).
Proof.
  induction buf as [|c buf IH]; [exists ""; split; [reflexivity|now left]|].
  cbn [c_str]. destruct (code c =? 0) eqn:Hnul.
  - exists (String c buf). split; [reflexivity|].
    right. right. now apply nul_char.
  - cbn [cut_newline]. destruct (c =? newline)%char eqn:Hnl.
    + exists (String c buf). split; [reflexivity|].
      right. left. now apply Ascii.eqb_eq.
    + destruct IH as (after & Hbuf & Hafter). exists after.
      split; [cbn [append]; now rewrite <- Hbuf|assumption].
Qed.

(** X4.  When the comm and status files of a process open, the text that
    line 136 writes for it starts with the display name and carries the name
    of its entry of /proc as the identifier; the display name is the first
    line of the comm file up to, and without, its first newline or NUL: it
    holds neither, and has at most 255 characters. *)
Theorem display_name_is_one_line (fs : ProcFS) (pwd : Z -> option string)
        (d_name buf : string) (comm status : FILE) :
  lines_of fs (comm_path d_name) = Some (buf :: comm) ->
  lines_of fs (status_path d_name) = Some status ->
  exists name after owner,
    (forall process_info,
        result (describe_process fs pwd d_name process_info) =
        record_text name d_name owner) /\
    buf = name ++ after /\
    (after = "" \/ first_char after = newline \/ first_char after = zero) /\
    has_char newline name = false /\
    has_char zero name = false /\
    (String.length name <= 255)%nat /\
    (owner = "unknown" \/ exists uid, pwd uid = Some owner).
Proof.
  intros Hcomm Hstatus.
  destruct (display_name_split buf) as (after & Hbuf & Hafter).
  exists (cut_newline (c_str buf)), after,
         match pwd (read_uid status 0) with
         | Some pw_name => pw_name
         | None => "unknown"
         end.
  split; [|split; [assumption|split; [assumption|split; [|split; [|split]]]]].
  - intro process_info.
    now destruct (describe_process_trace fs pwd d_name process_info buf comm
                    status Hcomm Hstatus) as [_ ->].
  - apply cut_newline_no_newline.
  - apply cut_newline_keeps, c_str_no_nul.
  - apply lines_of_bound in Hcomm. inversion Hcomm; subst.
    pose proof (length_cut_newline (c_str buf)). pose proof (length_c_str buf).
    lia.
  - destruct (pwd (read_uid status 0)) as [pw_name|] eqn:Hpw;
      [right; now exists (read_uid status 0)|now left].
Qed.

Lemma display_name_is_one_line_witness :
  exists name after owner,
    (forall process_info,
        result (describe_process Sample.two_owners Sample.passwd "4321"
                  process_info) =
        record_text name "4321" owner) /\
    "nginx" ++ Sample.nl = name ++ after /\
    (after = "" \/ first_char after = newline \/ first_char after = zero) /\
    has_char newline name = false /\
    has_char zero name = false /\
    (String.length name <= 255)%nat /\
    (owner = "unknown" \/ exists uid, Sample.passwd uid = Some owner).
Proof.
  exact (display_name_is_one_line Sample.two_owners Sample.passwd "4321"
           ("nginx" ++ Sample.nl) [] _ eq_refl eq_refl).
Defined.

(** The text of the record of 4321, character by character. *)
Example display_name_of_4321 :
  result (describe_process Sample.two_owners Sample.passwd "4321" "") =
  "nginx            PID: 4321    User: www-data".
Proof. reflexivity. Qed.

(** X5.  A record is cut only at 511 characters: its length is the sum of its
    padded fields or 511, whichever is less, so the record of a process
    listed under at most 10 digits, whose owner's name has at most 231
    characters, is printed in full, with the name in a column of 15, the
    identifier in a column of 6 and the owner in a column of 8. *)
Theorem record_is_cut_at_511 (fs : ProcFS) (pwd : Z -> option string)
        (d_name : string) (r : ProcessRecord) :
  record_of fs pwd d_name = Some r ->
  String.length (render r) =
    Nat.min 511 (Nat.max 15 (String.length (executableName r)) + 7
                 + Nat.max 6 (String.length d_name) + 8
                 + Nat.max 8 (String.length (ownerName r))) /\
  ((String.length d_name <= 10)%nat ->
   (String.length (ownerName r) <= 231)%nat ->
   render r =
   pad_right 15 (executableName r) ++ "  PID: " ++ pad_right 6 d_name
   ++ "  User: " ++ pad_right 8 (ownerName r)).
Proof.
  intro Hrecord.
  destruct (record_name_bound fs pwd d_name r Hrecord) as [Hname Hid].
  unfold render, format_process_info, snprintf. rewrite Hid.
  change (512 - 1)%nat with 511%nat.
  assert (Hlen : String.length
                   (pad_right 15 (executableName r) ++ "  PID: "
                    ++ pad_right 6 d_name ++ "  User: "
                    ++ pad_right 8 (ownerName r)) =
                 (Nat.max 15 (String.length (executableName r)) + 7
                  + Nat.max 6 (String.length d_name) + 8
                  + Nat.max 8 (String.length (ownerName r)))%nat).
  { rewrite !length_append, !length_pad_right. cbn [String.length]. lia. }
  split.
  - now rewrite length_take_min, Hlen.
  - intros Hd Howner. apply take_all. rewrite Hlen. lia.
Qed.

Lemma record_is_cut_at_511_witness :
  String.length (render {| executableName := "nginx"; processId := "4321";
                           ownerName := "www-data" |}) = 44%nat.
Proof.
  exact (proj1 (record_is_cut_at_511 Sample.two_owners Sample.passwd "4321"
                  {| executableName := "nginx"; processId := "4321";
                     ownerName := "www-data" |} eq_refl)).
Defined.

(** ** What stays open *)

Lemma handle_eqb_is_file (h x : Handle) :
  handle_eqb h x = true -> is_file x = is_file h.
Proof. destruct h, x; simpl; intro H; try discriminate; reflexivity. Qed.

Lemma release_not_file (h : Handle) (held : list Handle) :
  is_file h = false -> not_files (release h held) = release h (not_files held).
Proof.
  intro Hh. induction held as [|x held IH]; [reflexivity|].
  cbn [release]. destruct (handle_eqb h x) eqn:Heq.
  - unfold not_files. cbn [filter].
    rewrite (handle_eqb_is_file h x Heq), Hh. cbn [negb release]. now rewrite Heq.
  - unfold not_files in *. cbn [filter].
    destruct (is_file x); cbn [negb release]; [exact IH|].
    now rewrite Heq, IH.
Qed.

Lemma release_file (h : Handle) (held : list Handle) :
  is_file h = true -> not_files (release h held) = not_files held.
Proof.
  intro Hh. induction held as [|x held IH]; [reflexivity|].
  cbn [release]. destruct (handle_eqb h x) eqn:Heq; unfold not_files in *;
    cbn [filter].
  - now rewrite (handle_eqb_is_file h x Heq), Hh.
  - now rewrite IH.
Qed.

Lemma file_events_keep (t : list Event) :
  Forall (fun e => file_event e = true) t ->
  forall held, not_files (held_after held t) = not_files held.
Proof.
  induction 1 as [|e t He _ IH]; intro held; [reflexivity|].
  cbn [held_after fold_left]. fold (held_after (step_held held e) t).
  rewrite IH.
  destruct e as [[| |path] [|]| | [| |path] | | |]; try discriminate He;
    cbn [step_held]; try reflexivity.
  now apply release_file.
Qed.

Section FileEvents.

Variable our_pid : Z.
Variable fs : ProcFS.
Variable pwd : Z -> option string.

Lemma fopen_file_events (path : string) :
  Forall (fun e => file_event e = true) (trace (fopen fs path)).
Proof. unfold fopen. destruct (file_content fs path); repeat constructor. Qed.

Lemma describe_process_file_events (d_name process_info : string) :
  Forall (fun e => file_event e = true)
         (trace (describe_process fs pwd d_name process_info)).
Proof.
  unfold describe_process. io_simpl.
  repeat (apply Forall_app; split); try apply fopen_file_events.
  destruct (result (fopen fs (comm_path d_name))) as [[|buf comm]|];
    destruct (result (fopen fs (status_path d_name))) as [status|];
    io_simpl; repeat constructor.
Qed.

(** The calls of the loop over a socket table are those of line 106 on, when
    an entry has the port, and none otherwise. *)
Lemma scan_tcp_table_trace (port : Z) (d_name : string) (table : FILE)
      (process_info : string) :
  trace (scan_tcp_table fs pwd port d_name table process_info) =
  if existsb (entry_has_port port) table
  then trace (describe_process fs pwd d_name process_info)
  else [].
Proof.
  induction table as [|buf rest IH]; cbn [scan_tcp_table existsb];
    [reflexivity|].
  unfold entry_has_port at 1.
  destruct (sscanf_tcp (c_str buf)) as [local_port|]; cbn [orb]; [|exact IH].
  destruct (local_port =? port); cbn [orb]; [|exact IH].
  io_simpl. apply app_nil_r.
Qed.

Lemma readdir_loop_file_events (port : Z) (entries : list string) :
  forall process_info,
    Forall (fun e => file_event e = true)
           (trace (readdir_loop our_pid fs pwd port entries process_info)).
Proof.
  induction entries as [|d_name later IH]; intro process_info;
    cbn [readdir_loop]; [constructor|].
  destruct (skipped our_pid d_name); [apply IH|].
  io_simpl. apply Forall_app. split; [apply fopen_file_events|].
  destruct (result (fopen fs (net_tcp_path d_name))) as [table|]; [|apply IH].
  io_simpl. rewrite scan_tcp_table_trace.
  repeat (apply Forall_app; split); try apply IH; [|repeat constructor].
  destruct (existsb (entry_has_port port) (tl table));
    [apply describe_process_file_events|constructor].
Qed.

(** The correlator leaves the sockets alone and releases its directory
    stream. *)
Lemma get_process_info_keeps (port : Z) (held : list Handle) :
  not_files (held_after held (trace (get_process_info our_pid fs pwd port))) =
  not_files held.
Proof.
  unfold get_process_info.
  destruct (proc_entries fs) as [entries|]; [|reflexivity].
  io_simpl. rewrite app_nil_r, !held_after_app.
  change (held_after held [EvOpen HDir true]) with (HDir :: held).
  match goal with
  | |- context [held_after ?h [EvRelease HDir]] =>
      change (held_after h [EvRelease HDir]) with (release HDir h)
  end.
  rewrite release_not_file by reflexivity.
  rewrite (file_events_keep _ (readdir_loop_file_events port entries "")).
  apply release_head.
Qed.

End FileEvents.

Lemma scan_port_keeps (W : World) (port : Z) (held : list Handle) :
  not_files (held_after held (trace (scan_port W port))) = not_files held.
Proof.
  rewrite scan_port_trace.
  destruct (socket_ok W port 0); [|reflexivity].
  destruct (connect_ok W port 0).
  - rewrite !held_after_app, check_port_state_releases.
    match goal with
    | |- context [held_after ?h [row_event ?r; EvRelease ?s]] =>
        change (held_after h [row_event r; EvRelease s]) with (release s h)
    end.
    rewrite release_not_file by reflexivity.
    unfold correlation. rewrite get_process_info_keeps.
    apply release_head.
  - cbn [held_after fold_left step_held]. now rewrite release_head.
Qed.

Lemma rounds_keep (W : World) (ports : list Z) :
  forall held,
    not_files (held_after held (flat_map (fun q => trace (scan_port W q)) ports)) =
    not_files held.
Proof.
  induction ports as [|p ports IH]; intro held; [reflexivity|].
  cbn [flat_map]. now rewrite held_after_app, IH, scan_port_keeps.
Qed.

Lemma not_files_nil (held : list Handle) :
  not_files held = [] -> Forall (fun h => is_file h = true) held.
Proof.
  induction held as [|h held IH]; [constructor|].
  unfold not_files in *. cbn [filter].
  destruct (is_file h) eqn:Hh; cbn [negb]; [|discriminate].
  intro H. constructor; [assumption|now apply IH].
Qed.

(** X6.  Whatever the sockets, /proc and the databases do, a round of the
    sweep ends with the sockets and directory streams it started with, and
    when [main] returns no socket and no directory stream is open: the only
    handles a run can leave open are streams on files of /proc. *)
Theorem run_leaves_no_socket_open (W : World) :
  (forall port held,
      not_files (held_after held (trace (scan_port W port))) = not_files held) /\
  (forall our_pid fs pwd port held,
      not_files (held_after held (trace (get_process_info our_pid fs pwd port))) =
      not_files held) /\
  Forall (fun h => is_file h = true) (leaked (trace (main W))).
Proof.
  split; [apply scan_port_keeps|split; [intros; apply get_process_info_keeps|]].
  apply not_files_nil. unfold leaked. rewrite main_trace, held_after_app.
  now rewrite rounds_keep.
Qed.

Lemma release_length (h : Handle) (held : list Handle) :
  In h held -> S (List.length (release h held)) = List.length held.
Proof.
  induction held as [|x held IH]; [contradiction|].
  cbn [release]. destruct (handle_eqb h x) eqn:Heq; [reflexivity|].
  intros [-> | Hin]; [now rewrite handle_eqb_refl in Heq|].
  cbn [List.length]. now rewrite IH.
Qed.

(** One round of the loop over /proc leaves one stream more when the process
    has the port and exactly one of its two files opens, and none otherwise. *)
Lemma readdir_loop_leaks (our_pid : Z) (fs : ProcFS) (pwd : Z -> option string)
      (port : Z) (entries : list string) :
  forall process_info held,
    List.length
      (held_after held
         (trace (readdir_loop our_pid fs pwd port entries process_info))) =
    (List.length held +
     List.length (filter (fun d => matches our_pid fs port d && unpaired fs d)
                         entries))%nat.
Proof.
  induction entries as [|d_name later IH]; intros process_info held;
    cbn [readdir_loop filter];
    [rewrite trace_ret; cbn [held_after fold_left List.length]; lia|].
  unfold matches at 1, table_has_port, lines_of.
  destruct (skipped our_pid d_name); cbn [negb andb]; [apply IH|].
  unfold fopen.
  destruct (file_content fs (net_tcp_path d_name)) as [content|];
    cbn [option_map]; io_simpl; rewrite !held_after_app, IH;
    [|reflexivity].
  rewrite scan_tcp_table_trace. unfold fclose. rewrite trace_emit.
  change (held_after held [EvOpen (HFile (net_tcp_path d_name)) true])
    with (HFile (net_tcp_path d_name) :: held).
  match goal with
  | |- context [held_after ?h [EvRelease ?s]] =>
      change (held_after h [EvRelease s]) with (release s h)
  end.
  destruct (existsb (entry_has_port port) (tl (fgets_chunks 256 255 content)));
    cbn [andb].
  - rewrite describe_process_held. unfold unpaired.
    destruct (file_content fs (comm_path d_name));
      destruct (file_content fs (status_path d_name));
      cbn [release handle_eqb List.length];
      rewrite ?String.eqb_refl; cbn [List.length]; try lia.
    + destruct (net_tcp_path d_name =? comm_path d_name)%string;
        cbn [release handle_eqb List.length]; rewrite ?String.eqb_refl;
        cbn [List.length]; lia.
    + destruct (net_tcp_path d_name =? status_path d_name)%string;
        cbn [release handle_eqb List.length]; rewrite ?String.eqb_refl;
        cbn [List.length]; lia.
  - cbn [held_after fold_left release handle_eqb].
    rewrite String.eqb_refl. cbn [List.length]. lia.
Qed.

(** X7.  The correlator leaves open one stream for each process that is
    looked at, has the port in its socket table, and of whose comm and status
    files exactly one can be opened; it leaves nothing else open, and
    nothing at all when /proc cannot be opened. *)
Theorem correlator_leak_count (our_pid : Z) (fs : ProcFS)
        (pwd : Z -> option string) (port : Z) :
  List.length (leaked (trace (get_process_info our_pid fs pwd port))) =
  match proc_entries fs with
  | Some entries =>
      List.length (filter (fun d => matches our_pid fs port d && unpaired fs d)
                          entries)
  | None => 0%nat
  end.
Proof.
  unfold leaked, get_process_info.
  destruct (proc_entries fs) as [entries|]; [|reflexivity].
  io_simpl. rewrite app_nil_r, !held_after_app.
  change (held_after [] [EvOpen HDir true]) with [HDir].
  match goal with
  | |- context [held_after ?h [EvRelease HDir]] =>
      change (held_after h [EvRelease HDir]) with (release HDir h)
  end.
  pose proof (readdir_loop_leaks our_pid fs pwd port entries "" [HDir]) as Hlen.
  pose proof (file_events_keep _
                (readdir_loop_file_events our_pid fs pwd port entries "") [HDir])
    as Hkeep.
  assert (Hin : In HDir (held_after [HDir]
                           (trace (readdir_loop our_pid fs pwd port entries "")))).
  { assert (H : In HDir (not_files [HDir])) by (left; reflexivity).
    rewrite <- Hkeep in H. unfold not_files in H. now apply filter_In in H. }
  apply release_length in Hin. cbn [List.length] in Hlen. lia.
Qed.

(** ** The order of a round *)

(** X8.  In the round of a port whose first dial succeeds, the first socket
    is still connected when the second dial is made: both sockets are held at
    that moment, and the first one is released last, after the row is
    printed. *)
Theorem first_socket_held_during_second_dial (W : World) (port : Z)
        (held : list Handle) :
  first_dial_ok W port = true ->
  socket_ok W port 1 = true ->
  exists before between,
    trace (scan_port W port) =
      (before ++ EvConnect port 1 (connect_ok W port 1) :: between
       ++ [row_event (row_for W port); EvRelease (HSock port 0)])%list /\
    held_after held before = HSock port 1 :: HSock port 0 :: held /\
    ~ In (EvRelease (HSock port 0)) before /\
    ~ In (EvRelease (HSock port 0)) between.
Proof.
  unfold first_dial_ok. intros Hopen Hsock.
  apply andb_true_iff in Hopen. destruct Hopen as [Hs Hc].
  exists [EvOpen (HSock port 0) true; EvConnect port 0 true;
          EvGetservbyport port; EvOpen (HSock port 1) true],
         (EvRelease (HSock port 1) :: correlation W port).
  rewrite scan_port_trace, check_port_state_trace, Hs, Hc, Hsock.
  split; [reflexivity|].
  split; [reflexivity|]. split.
  - intros [H | [H | [H | [H | []]]]]; discriminate H.
  - intros [H | H]; [discriminate H|].
    pose proof (get_process_info_only_proc (getpid W) (procfs W port)
                  (getpwuid W) port) as Hall.
    unfold only_proc in Hall. rewrite Forall_forall in Hall.
    apply Hall in H. discriminate H.
Qed.

Lemma first_socket_held_during_second_dial_witness :
  exists before between,
    trace (scan_port (Sample.host Sample.two_owners) 80) =
      (before ++ EvConnect 80 1 true :: between
       ++ [row_event (row_for (Sample.host Sample.two_owners) 80);
           EvRelease (HSock 80 0)])%list /\
    held_after [] before = [HSock 80 1; HSock 80 0] /\
    ~ In (EvRelease (HSock 80 0)) before /\
    ~ In (EvRelease (HSock 80 0)) between.
Proof.
  exact (first_socket_held_during_second_dial
           (Sample.host Sample.two_owners) 80 [] eq_refl eq_refl).
Defined.

(** ** What a run prints and asks *)

Lemma filter_flat_map {A B : Type} (p : B -> bool) (f : A -> list B) (l : list A) :
  filter p (flat_map f l) = flat_map (fun a => filter p (f a)) l.
Proof.
  induction l as [|a l IH]; cbn [flat_map]; [reflexivity|].
  now rewrite filter_app, IH.
Qed.

Lemma filter_none {A : Type} (p q : A -> bool) (l : list A) :
  Forall (fun a => q a = true) l ->
  (forall a, q a = true -> p a = false) ->
  filter p l = [].
Proof.
  intros Hall Hpq. induction Hall as [|a l Ha _ IH]; [reflexivity|].
  cbn [filter]. now rewrite (Hpq a Ha).
Qed.

Lemma only_proc_printed (t : list Event) : only_proc t -> printed t = [].
Proof.
  intro H. apply (filter_none is_printf proc_event t H).
  intros [[| |]| | [| |] | | |] He; try discriminate; reflexivity.
Qed.

Lemma only_proc_service_lookups (t : list Event) :
  only_proc t -> service_lookups t = [].
Proof.
  intro H. apply flat_map_nil_of_forall. revert H. apply Forall_impl.
  intros [[| |]| | [| |] | | |] He; try discriminate; reflexivity.
Qed.

Lemma flat_map_rounds {B : Type} (W : World) (f : Z -> list B)
      (g : Event -> list B) (ports : list Z) :
  (forall q, flat_map g (trace (scan_port W q)) =
             if first_dial_ok W q then f q else []) ->
  flat_map g (flat_map (fun q => trace (scan_port W q)) ports) =
  flat_map f (filter (first_dial_ok W) ports).
Proof.
  intro Hround. rewrite flat_map_flat_map.
  induction ports as [|p ports IH]; [reflexivity|].
  cbn [flat_map filter]. rewrite IH, Hround.
  destruct (first_dial_ok W p); reflexivity.
Qed.

Lemma scan_port_printed (W : World) (port : Z) :
  printed (trace (scan_port W port)) =
  if first_dial_ok W port then [row_event (row_for W port)] else [].
Proof.
  rewrite scan_port_trace, check_port_state_trace. unfold first_dial_ok.
  destruct (socket_ok W port 0); [|reflexivity].
  destruct (connect_ok W port 0); [|reflexivity].
  unfold printed. rewrite !filter_app.
  fold (printed (correlation W port)).
  rewrite (only_proc_printed (correlation W port))
    by apply get_process_info_only_proc.
  destruct (socket_ok W port 1); reflexivity.
Qed.

(** X9.  The output of a run is the four lines of the banner, printed once
    before the first socket is asked for, followed by one row for each port
    whose first dial succeeds, in ascending order, and nothing else; [main]
    returns 0 whatever failed. *)
Theorem output_is_banner_then_rows (W : World) :
  printed (trace (main W)) =
    (trace print_banner
     ++ map (fun p => row_event (row_for W p))
            (filter (first_dial_ok W) port_range))%list /\
  (exists rounds, trace (main W) = (trace print_banner ++ rounds)%list /\
                  printed rounds = map (fun p => row_event (row_for W p))
                                       (filter (first_dial_ok W) port_range)) /\
  List.length (trace print_banner) = 4%nat /\
  result (main W) = 0.
Proof.
  assert (Hrounds :
            printed (flat_map (fun q => trace (scan_port W q)) port_range) =
            map (fun p => row_event (row_for W p))
                (filter (first_dial_ok W) port_range)).
  { unfold printed. rewrite filter_flat_map.
    induction port_range as [|p ports IH]; [reflexivity|].
    cbn [flat_map filter]. rewrite IH.
    fold (printed (trace (scan_port W p))). rewrite scan_port_printed.
    destruct (first_dial_ok W p); reflexivity. }
  split; [|split; [|split]].
  - rewrite main_trace. unfold printed at 1. rewrite filter_app.
    fold (printed (flat_map (fun q => trace (scan_port W q)) port_range)).
    now rewrite Hrounds.
  - exists (flat_map (fun q => trace (scan_port W q)) port_range).
    split; [apply main_trace|exact Hrounds].
  - reflexivity.
  - unfold main. now rewrite !result_bind.
Qed.

Lemma scan_port_service_lookups (W : World) (port : Z) :
  service_lookups (trace (scan_port W port)) =
  if first_dial_ok W port then [port] else [].
Proof.
  rewrite scan_port_trace, check_port_state_trace. unfold first_dial_ok.
  destruct (socket_ok W port 0); [|reflexivity].
  destruct (connect_ok W port 0); [|reflexivity].
  unfold service_lookups. rewrite !flat_map_app.
  fold (service_lookups (correlation W port)).
  rewrite (only_proc_service_lookups (correlation W port))
    by apply get_process_info_only_proc.
  destruct (socket_ok W port 1); reflexivity.
Qed.

Lemma file_events_opendirs (t : list Event) :
  Forall (fun e => file_event e = true) t -> opendirs t = [].
Proof.
  intro H. apply (filter_none is_opendir file_event t H).
  intros [[| |]| | [| |] | | |] He; try discriminate; reflexivity.
Qed.

Lemma get_process_info_opendirs (our_pid : Z) (fs : ProcFS)
      (pwd : Z -> option string) (port : Z) :
  List.length (opendirs (trace (get_process_info our_pid fs pwd port))) = 1%nat.
Proof.
  unfold get_process_info.
  destruct (proc_entries fs) as [entries|]; [|reflexivity].
  io_simpl. unfold opendirs. rewrite !filter_app.
  fold (opendirs (trace (readdir_loop our_pid fs pwd port entries ""))).
  rewrite (file_events_opendirs _
             (readdir_loop_file_events our_pid fs pwd port entries "")).
  reflexivity.
Qed.

Lemma scan_port_opendirs (W : World) (port : Z) :
  List.length (opendirs (trace (scan_port W port))) =
  if first_dial_ok W port then 1%nat else 0%nat.
Proof.
  rewrite scan_port_trace, check_port_state_trace. unfold first_dial_ok.
  destruct (socket_ok W port 0); [|reflexivity].
  destruct (connect_ok W port 0); [|reflexivity].
  unfold opendirs. rewrite !filter_app, !length_app.
  fold (opendirs (correlation W port)). unfold correlation.
  rewrite get_process_info_opendirs.
  destruct (socket_ok W port 1); reflexivity.
Qed.

(** X10.  The work of a run follows the open ports: the service database is
    asked once for each port whose first dial succeeds, in ascending order,
    /proc is opened as many times as there are such ports, and the ports
    dialled a second time are those among them for which a second socket
    could be created; nothing of this is done for any other port. *)
Theorem work_follows_open_ports (W : World) :
  service_lookups (trace (main W)) = filter (first_dial_ok W) port_range /\
  List.length (opendirs (trace (main W))) =
    List.length (filter (first_dial_ok W) port_range) /\
  connects 1 (trace (main W)) =
    filter (fun p => socket_ok W p 1) (filter (first_dial_ok W) port_range) /\
  List.length (rows (trace (main W))) =
    List.length (filter (first_dial_ok W) port_range).
Proof.
  split; [|split; [|split]].
  - rewrite main_trace. unfold service_lookups. rewrite flat_map_app.
    change (flat_map service_lookup_of banner) with (@nil Z). cbn [app].
    rewrite (flat_map_rounds W (fun q => [q])).
    + induction (filter (first_dial_ok W) port_range) as [|p l IH];
        [reflexivity|]. cbn [flat_map app]. now rewrite IH.
    + apply scan_port_service_lookups.
  - rewrite main_trace. unfold opendirs. rewrite filter_app, filter_flat_map.
    change (filter is_opendir banner) with (@nil Event). cbn [app].
    induction port_range as [|p ports IH]; [reflexivity|].
    cbn [flat_map filter]. rewrite length_app, IH.
    fold (opendirs (trace (scan_port W p))). rewrite scan_port_opendirs.
    destruct (first_dial_ok W p); reflexivity.
  - rewrite main_second_dials.
    induction port_range as [|p ports IH]; [reflexivity|].
    cbn [filter]. rewrite IH.
    destruct (first_dial_ok W p); cbn [andb filter]; reflexivity.
  - now rewrite main_rows, length_map.
Qed.

(** ** What the correlator reads *)

Lemma describe_process_opens (fs : ProcFS) (pwd : Z -> option string)
      (d_name process_info path : string) (ok : bool) :
  In (EvOpen (HFile path) ok) (trace (describe_process fs pwd d_name process_info)) ->
  path = comm_path d_name \/ path = status_path d_name.
Proof.
  unfold describe_process, fopen.
  destruct (file_content fs (comm_path d_name)) as [comm|];
    destruct (file_content fs (status_path d_name)) as [status|];
    io_simpl; try (destruct (fgets_chunks 256 255 comm) as [|buf comm']; io_simpl);
    unfold call_getpwuid, fclose; io_simpl; cbn [app In];
    intro H; repeat (destruct H as [H | H]; [inversion H; auto|]);
    contradiction.
Qed.

Lemma readdir_loop_opens (our_pid : Z) (fs : ProcFS) (pwd : Z -> option string)
      (port : Z) (path : string) (ok : bool) (entries : list string) :
  forall process_info,
    In (EvOpen (HFile path) ok)
       (trace (readdir_loop our_pid fs pwd port entries process_info)) ->
    exists d,
      In d entries /\ skipped our_pid d = false /\
      (path = net_tcp_path d \/
       table_has_port fs port d = true /\
       (path = comm_path d \/ path = status_path d)).
Proof.
  induction entries as [|d_name later IH]; intros process_info;
    cbn [readdir_loop]; [rewrite trace_ret; contradiction|].
  assert (Hlater : forall info,
             In (EvOpen (HFile path) ok)
                (trace (readdir_loop our_pid fs pwd port later info)) ->
             exists d,
               In d (d_name :: later) /\ skipped our_pid d = false /\
               (path = net_tcp_path d \/
                table_has_port fs port d = true /\
                (path = comm_path d \/ path = status_path d))).
  { intros info H. destruct (IH info H) as (d & Hd & Hrest).
    exists d. split; [now right|assumption]. }
  destruct (skipped our_pid d_name) eqn:Hskip; [apply Hlater|].
  unfold fopen, table_has_port, lines_of in *.
  destruct (file_content fs (net_tcp_path d_name)) as [content|] eqn:Hnet;
    io_simpl; rewrite ?scan_tcp_table_trace; unfold fclose;
    rewrite ?trace_emit, ?in_app_iff; cbn [In].
  - intros [[H | []] | [H | [[H | []] | H]]]; try discriminate H.
    + inversion H; subst. exists d_name.
      split; [now left|]. split; [assumption|now left].
    + destruct (existsb (entry_has_port port) (tl (fgets_chunks 256 255 content)))
        eqn:Hhas; [|contradiction].
      apply describe_process_opens in H. exists d_name.
      split; [now left|]. split; [assumption|]. right.
      rewrite Hnet. cbn [option_map]. now split.
    + now apply Hlater in H.
  - intros [[H | []] | H].
    + inversion H; subst. exists d_name.
      split; [now left|]. split; [assumption|now left].
    + now apply Hlater in H.
Qed.

(** X11.  Every file the correlator opens belongs to an entry that /proc
    lists, whose name starts with a digit and whose number is not the
    scanner's: it is the socket table of that process, or, when that table has
    the port, its comm or status file.  When /proc cannot be opened no file is
    opened at all. *)
Theorem only_listed_processes_are_read (our_pid : Z) (fs : ProcFS)
        (pwd : Z -> option string) (port : Z) (path : string) (ok : bool) :
  In (EvOpen (HFile path) ok) (trace (get_process_info our_pid fs pwd port)) ->
  exists entries d,
    proc_entries fs = Some entries /\ In d entries /\
    isdigit (first_char d) = true /\ atoi d <> our_pid /\
    (path = net_tcp_path d \/
     table_has_port fs port d = true /\
     (path = comm_path d \/ path = status_path d)).
Proof.
  unfold get_process_info.
  destruct (proc_entries fs) as [entries|].
  - io_simpl. rewrite !in_app_iff. cbn [In].
    intros [[H | []] | [H | [[H | []] | []]]]; try discriminate H.
    destruct (readdir_loop_opens _ _ _ _ _ _ _ _ H) as (d & Hd & Hskip & Hpath).
    exists entries, d. unfold skipped in Hskip.
    apply orb_false_iff in Hskip. destruct Hskip as [Hdigit Hpid].
    apply negb_false_iff in Hdigit. apply Z.eqb_neq in Hpid.
    repeat split; assumption.
  - cbn [trace snd In]. intros [H | []]. discriminate H.
Qed.

Lemma only_listed_processes_are_read_witness :
  exists entries d,
    proc_entries Sample.two_owners = Some entries /\ In d entries /\
    isdigit (first_char d) = true /\ atoi d <> 99 /\
    ("/proc/4321/comm" = net_tcp_path d \/
     table_has_port Sample.two_owners 80 d = true /\
     ("/proc/4321/comm" = comm_path d \/ "/proc/4321/comm" = status_path d)).
Proof.
  refine (only_listed_processes_are_read 99 Sample.two_owners Sample.passwd 80
            "/proc/4321/comm" true _).
  vm_compute. tauto.
Defined.

(** X12.  [check_port_state] is self-contained on each of its three paths: it
    asks for one socket, dials at most once and only when it got the socket,
    releases that socket before it returns and touches no other descriptor,
    prints nothing, and returns 0 exactly when no socket could be created. *)
Theorem second_dial_is_self_contained (W : World) (port : Z) :
  (forall held, held_after held (trace (check_port_state W port)) = held) /\
  connects 1 (trace (check_port_state W port)) =
    (if socket_ok W port 1 then [port] else []) /\
  connects 0 (trace (check_port_state W port)) = [] /\
  printed (trace (check_port_state W port)) = [] /\
  (result (check_port_state W port) = 0 <-> socket_ok W port 1 = false) /\
  (forall e p, In e (trace (check_port_state W port)) ->
               socket_port e = Some p -> p = port).
Proof.
  rewrite check_port_state_result, check_port_state_trace.
  destruct (socket_ok W port 1) eqn:Hsock.
  - split; [intro held; cbn [held_after fold_left step_held];
            apply release_head|].
    repeat split; try discriminate.
    + destruct (connect_ok W port 1); discriminate.
    + intros e p [<- | [<- | [<- | []]]] Hp; cbn in Hp; congruence.
  - repeat split; try reflexivity.
    intros e p [<- | []] Hp. cbn in Hp. congruence.
Qed.

(** ** How many sockets are open at a time *)

Lemma socks_not_files (held : list Handle) :
  socks held = filter is_sock (not_files held).
Proof.
  unfold socks, not_files. induction held as [|h held IH]; [reflexivity|].
  cbn [filter]. destruct h; cbn [is_sock is_file negb filter]; now rewrite IH.
Qed.

Lemma socket_peak_app (t1 t2 : list Event) :
  forall held,
    socket_peak held (t1 ++ t2) =
    Nat.max (socket_peak held t1) (socket_peak (held_after held t1) t2).
Proof.
  induction t1 as [|e t1 IH]; intro held; cbn [app socket_peak].
  - cbn [held_after fold_left]. destruct t2; cbn [socket_peak]; lia.
  - rewrite IH. unfold held_after. cbn [fold_left]. lia.
Qed.

Lemma socket_peak_prefix (pre rest : list Event) :
  forall held,
    (List.length (socks (held_after held pre)) <= socket_peak held (pre ++ rest))%nat.
Proof.
  induction pre as [|e pre IH]; intro held; cbn [app held_after fold_left].
  - destruct rest; cbn [socket_peak]; lia.
  - cbn [socket_peak]. specialize (IH (step_held held e)).
    unfold held_after in IH. lia.
Qed.

Lemma release_keeps_socks (h : Handle) (held : list Handle) :
  is_sock h = false -> socks (release h held) = socks held.
Proof.
  intro Hh. unfold socks. induction held as [|x held IH]; [reflexivity|].
  cbn [release]. destruct (handle_eqb h x) eqn:Heq; cbn [filter].
  - destruct h, x; cbn in Heq, Hh |- *; try discriminate; reflexivity.
  - now rewrite IH.
Qed.

Lemma proc_event_keeps_socks (e : Event) (held : list Handle) :
  proc_event e = true -> socks (step_held held e) = socks held.
Proof.
  destruct e as [[| |path] [|]| | [| |path] | | |]; intro He;
    try discriminate He; cbn [step_held]; try reflexivity;
    now apply release_keeps_socks.
Qed.

Lemma socket_peak_only_proc (t : list Event) :
  only_proc t -> forall held, socket_peak held t = List.length (socks held).
Proof.
  induction 1 as [|e t He _ IH]; intro held; cbn [socket_peak]; [reflexivity|].
  rewrite IH, (proc_event_keeps_socks e held He). lia.
Qed.

Lemma only_proc_keeps_socks (t : list Event) :
  only_proc t -> forall held, socks (held_after held t) = socks held.
Proof.
  induction 1 as [|e t He _ IH]; intro held; [reflexivity|].
  cbn [held_after fold_left]. fold (held_after (step_held held e) t).
  now rewrite IH, proc_event_keeps_socks.
Qed.

Lemma socks_release_le (h : Handle) (held : list Handle) :
  (List.length (socks (release h held)) <= List.length (socks held))%nat.
Proof.
  unfold socks. induction held as [|x held IH]; [cbn; lia|].
  cbn [release]. destruct (handle_eqb h x); cbn [filter];
    destruct (is_sock x); cbn [List.length]; lia.
Qed.

Lemma check_port_state_peak (W : World) (port : Z) (held : list Handle) :
  (socket_peak held (trace (check_port_state W port)) <=
   S (List.length (socks held)))%nat.
Proof.
  rewrite check_port_state_trace.
  destruct (socket_ok W port 1); cbn [socket_peak step_held];
    rewrite ?release_head; unfold socks; cbn [filter is_sock List.length]; lia.
Qed.

(** In a round that starts without a socket, at most two are held. *)
Lemma scan_port_socket_peak (W : World) (port : Z) (held : list Handle) :
  socks held = [] ->
  (socket_peak held (trace (scan_port W port)) <= 2)%nat /\
  socks (held_after held (trace (scan_port W port))) = [].
Proof.
  intro Hnone. split.
  - assert (Hone : List.length (socks (HSock port 0 :: held)) = 1%nat)
      by (unfold socks in *; cbn [filter is_sock]; now rewrite Hnone).
    assert (Hzero : List.length (socks held) = 0%nat) by now rewrite Hnone.
    rewrite scan_port_trace.
    destruct (socket_ok W port 0); [destruct (connect_ok W port 0)|].
    + pose proof (get_process_info_only_proc (getpid W) (procfs W port)
                    (getpwuid W) port) as Hproc.
      fold (correlation W port) in Hproc.
      rewrite !socket_peak_app.
      change (held_after held [EvOpen (HSock port 0) true; EvConnect port 0 true;
                               EvGetservbyport port])
        with (HSock port 0 :: held).
      rewrite check_port_state_releases.
      rewrite (socket_peak_only_proc _ Hproc).
      pose proof (check_port_state_peak W port (HSock port 0 :: held)) as Hcps.
      unfold row_event. cbn [socket_peak step_held].
      pose proof (socks_release_le (HSock port 0)
                    (held_after (HSock port 0 :: held) (correlation W port)))
        as Hrel.
      rewrite (only_proc_keeps_socks _ Hproc) in *. lia.
    + cbn [socket_peak step_held]. rewrite release_head. lia.
    + cbn [socket_peak step_held]. lia.
  - rewrite socks_not_files, scan_port_keeps, <- socks_not_files. assumption.
Qed.

Lemma rounds_socket_peak (W : World) (ports : list Z) :
  forall held,
    socks held = [] ->
    (socket_peak held (flat_map (fun q => trace (scan_port W q)) ports) <= 2)%nat.
Proof.
  induction ports as [|p ports IH]; intros held Hnone; cbn [flat_map].
  - cbn [socket_peak]. rewrite Hnone. cbn. lia.
  - rewrite socket_peak_app.
    destruct (scan_port_socket_peak W p held Hnone) as [Hpeak Hafter].
    specialize (IH _ Hafter). lia.
Qed.

(** X13.  At no point of a run are more than two sockets open: the socket of
    the first dial and, while the state of an open port is detected, the
    socket of the second dial; this holds whatever fails and however many
    streams on /proc stay open. *)
Theorem at_most_two_sockets (W : World) :
  (socket_peak [] (trace (main W)) <= 2)%nat /\
  (forall pre rest,
      trace (main W) = (pre ++ rest)%list ->
      (List.length (socks (leaked pre)) <= 2)%nat).
Proof.
  assert (Hpeak : (socket_peak [] (trace (main W)) <= 2)%nat).
  { rewrite main_trace, socket_peak_app.
    pose proof (rounds_socket_peak W port_range (held_after [] banner) eq_refl).
    change (socket_peak [] banner) with 0%nat. lia. }
  split; [exact Hpeak|].
  intros pre rest Hsplit. unfold leaked.
  pose proof (socket_peak_prefix pre rest []) as Hpre.
  rewrite <- Hsplit in Hpre. lia.
Qed.
